(** * nimsforestviewer: a shallow embedding of the orchestration core

    The development follows the Go package file by file:
    - [state.go]           the ViewState data model,
    - [json.go]            the projection to the wire format,
    - [target_web.go]      the Web/JSON target and its viewmodel handler,
    - [state_provider.go], [target.go], [viewer.go]
                           the Viewer and its fan-out / lifecycle protocol,
    - [target_smarttv.go]  the image target and its change suppression,
    - [target_video.go]    the video generation pipeline.

    Go's [float64] is the kernel's binary64 [float]; [int] and [uint64] are
    [Z]; a pointer that may be nil is an [option]; mutable objects reached
    through interface values live in an explicit heap. *)

From Stdlib Require Import ZArith String List Floats.
From Stdlib Require Uint63.
From stdpp Require Import gmap strings list pretty.

#[local] Set Warnings "-register-all,-inexact-float,-abstract-large-number".
#[local] Open Scope string_scope.
#[local] Open Scope list_scope.
#[local] Open Scope Z_scope.

(** ** Errors ([errors.New], [fmt.Errorf]) *)

(** [fmt.Errorf] without [%w] yields a plain message; with [%w] it yields a
    value that carries the formatted message and the wrapped cause. *)
Inductive error : Type :=
| errorString (msg : string)
| wrapError (msg : string) (cause : error).

Definition Error (e : error) : string :=
  match e with
  | errorString m => m
  | wrapError m _ => m
  end.

Definition Unwrap (e : error) : option error :=
  match e with
  | errorString _ => None
  | wrapError _ c => Some c
  end.

(** [fmt.Errorf(prefix + "%w", cause)]. *)
Definition Errorf_w (prefix : string) (cause : error) : error :=
  wrapError (prefix +:+ Error cause) cause.

(** The chain walked by [errors.Is] / [errors.Unwrap], outermost first. *)
Fixpoint chain (e : error) : list error :=
  match e with
  | errorString _ => [e]
  | wrapError _ c => e :: chain c
  end.

(** [strings.Contains]. *)
Fixpoint has_prefix (p s : string) : bool :=
  match p, s with
  | EmptyString, _ => true
  | String a p', String b s' => if Ascii.eqb a b then has_prefix p' s' else false
  | String _ _, EmptyString => false
  end.

Fixpoint Contains (s sub : string) : bool :=
  has_prefix sub s ||
  match s with
  | EmptyString => false
  | String _ s' => Contains s' sub
  end.

(** ** Numeric conversions *)

(** The bounds of [int] (64 bits). *)
Definition minInt64 : Z := -9223372036854775808.
Definition maxInt64 : Z := 9223372036854775807.

(** [float64(n)] for an integer [n]: rounding to nearest, ties to even. The
    conversion of the machine does it for the non-negative [int]s. *)
Definition float64_of_Z (z : Z) : float :=
  if (0 <=? z) && (z <=? maxInt64) then PrimFloat.of_uint63 (Uint63.of_Z z)
  else SF2Prim (binary_normalize prec emax z 0 false).

(** [math.Ceil]. *)
Definition math_Ceil (x : float) : float :=
  match Prim2SF x with
  | S754_finite s m e =>
      if 0 <=? e then x
      else
        let v := if s then Z.neg m else Z.pos m in
        let c := - Z.shiftr (- v) (- e) in
        if (c =? 0) && s then (- 0)%float else float64_of_Z c
  | _ => x
  end.

(** [int(x)] for a [float64]: truncation toward zero; a value outside the
    range of [int] (and NaN) converts to the amd64 "integer indefinite". *)
Definition int_of_float64 (x : float) : Z :=
  match Prim2SF x with
  | S754_zero _ => 0
  | S754_finite s m e =>
      let a := if 0 <=? e then Z.shiftl (Z.pos m) e else Z.shiftr (Z.pos m) (- e) in
      let v := if s then - a else a in
      if (minInt64 <=? v) && (v <=? maxInt64) then v else minInt64
  | _ => minInt64
  end.

Definition is_finite (x : float) : bool :=
  match Prim2SF x with
  | S754_zero _ | S754_finite _ _ _ => true
  | _ => false
  end.

(** ** state.go *)

Record ProcessView := {
  ProcessView_ID : string;
  ProcessView_Name : string;
  ProcessView_Type : string;
  ProcessView_RAMAllocated : Z;
  ProcessView_Progress : float
}.

Record LandView := {
  LandView_ID : string;
  LandView_Hostname : string;
  LandView_GridX : Z;
  LandView_GridY : Z;
  LandView_IsManaland : bool;
  LandView_Occupancy : float;
  LandView_RAMTotal : Z;
  LandView_RAMAllocated : Z;
  LandView_Trees : list ProcessView;
  LandView_Treehouses : list ProcessView;
  LandView_Nims : list ProcessView
}.

Record SummaryView := {
  TotalLands : Z;
  TotalManalands : Z;
  TotalTrees : Z;
  TotalTreehouses : Z;
  TotalNims : Z;
  TotalRAM : Z;
  AllocatedRAM : Z
}.

Record ViewState := {
  Lands : list LandView;
  Summary : SummaryView
}.

Definition AllProcesses (l : LandView) : list ProcessView :=
  LandView_Trees l ++ LandView_Treehouses l ++ LandView_Nims l.

(** ** json.go *)

(** A Go slice that is observably nil or not: [encoding/json] writes the nil
    slice as [null] and an empty one as [[]]. *)
Definition slice (A : Type) : Type := option (list A).

Record ProcessJSON := {
  ProcessJSON_ID : string;
  ProcessJSON_Name : string;
  ProcessJSON_RAMAllocated : Z;
  ProcessJSON_Type : string;
  ProcessJSON_Progress : float;
  ProcessJSON_Subjects : slice string;
  ProcessJSON_ScriptPath : string;
  ProcessJSON_AIEnabled : bool;
  ProcessJSON_Model : string
}.

Record LandJSON := {
  LandJSON_ID : string;
  LandJSON_Hostname : string;
  LandJSON_RAMTotal : Z;
  LandJSON_RAMAllocated : Z;
  LandJSON_CPUCores : Z;
  LandJSON_CPUFreqGHz : float;
  LandJSON_GPUVram : Z;
  LandJSON_GPUTflops : float;
  LandJSON_Occupancy : float;
  LandJSON_IsManaland : bool;
  LandJSON_GridX : Z;
  LandJSON_GridY : Z;
  LandJSON_Trees : slice ProcessJSON;
  LandJSON_Treehouses : slice ProcessJSON;
  LandJSON_Nims : slice ProcessJSON
}.

Record SummaryJSON := {
  SummaryJSON_LandCount : Z;
  SummaryJSON_ManalandCount : Z;
  SummaryJSON_TreeCount : Z;
  SummaryJSON_TreehouseCount : Z;
  SummaryJSON_NimCount : Z;
  SummaryJSON_TotalRAM : Z;
  SummaryJSON_RAMAllocated : Z;
  SummaryJSON_Occupancy : float
}.

Record WorldJSON := {
  WorldJSON_Lands : slice LandJSON;
  WorldJSON_Summary : SummaryJSON
}.

(** The composite literal [WorldJSON{}]: every field at its zero value. *)
Definition SummaryJSON_zero : SummaryJSON :=
  {| SummaryJSON_LandCount := 0; SummaryJSON_ManalandCount := 0;
     SummaryJSON_TreeCount := 0; SummaryJSON_TreehouseCount := 0;
     SummaryJSON_NimCount := 0; SummaryJSON_TotalRAM := 0;
     SummaryJSON_RAMAllocated := 0; SummaryJSON_Occupancy := 0%float |}.

Definition WorldJSON_zero : WorldJSON :=
  {| WorldJSON_Lands := None; WorldJSON_Summary := SummaryJSON_zero |}.

Definition calculateOccupancy (allocated total : Z) : float :=
  if total =? 0 then 0%float
  else (float64_of_Z allocated / float64_of_Z total)%float.

Definition processViewsToJSON (processes : list ProcessView) (procType : string)
  : slice ProcessJSON :=
  Some (map (fun p =>
    {| ProcessJSON_ID := ProcessView_ID p;
       ProcessJSON_Name := ProcessView_Name p;
       ProcessJSON_RAMAllocated := ProcessView_RAMAllocated p;
       ProcessJSON_Type := procType;
       ProcessJSON_Progress := ProcessView_Progress p;
       ProcessJSON_Subjects := None;
       ProcessJSON_ScriptPath := "";
       ProcessJSON_AIEnabled := false;
       ProcessJSON_Model := "" |}) processes).

(** [int(math.Ceil(math.Sqrt(float64(n))))], raised to 1 when smaller. *)
Definition gridSize (n : Z) : Z :=
  let g := int_of_float64 (math_Ceil (PrimFloat.sqrt (float64_of_Z n))) in
  if g <? 1 then 1 else g.

(** The body of the [range state.Lands] loop at index [i]. Go's [%] and [/]
    on [int] truncate toward zero: [Z.rem] and [Z.quot]. *)
Definition landToJSON (gridSize : Z) (i : nat) (land : LandView) : LandJSON :=
  let gridX := LandView_GridX land in
  let gridY := LandView_GridY land in
  let '(gridX, gridY) :=
    if (gridX =? 0) && (gridY =? 0) && (0 <? Z.of_nat i)
    then (Z.rem (Z.of_nat i) gridSize, Z.quot (Z.of_nat i) gridSize)
    else (gridX, gridY) in
  {| LandJSON_ID := LandView_ID land;
     LandJSON_Hostname := LandView_Hostname land;
     LandJSON_RAMTotal := LandView_RAMTotal land;
     LandJSON_RAMAllocated := LandView_RAMAllocated land;
     LandJSON_CPUCores := 0;
     LandJSON_CPUFreqGHz := 0%float;
     LandJSON_GPUVram := 0;
     LandJSON_GPUTflops := 0%float;
     LandJSON_Occupancy := LandView_Occupancy land;
     LandJSON_IsManaland := LandView_IsManaland land;
     LandJSON_GridX := gridX;
     LandJSON_GridY := gridY;
     LandJSON_Trees := processViewsToJSON (LandView_Trees land) "tree";
     LandJSON_Treehouses := processViewsToJSON (LandView_Treehouses land) "treehouse";
     LandJSON_Nims := processViewsToJSON (LandView_Nims land) "nim" |}.

(** [state] is a [*ViewState]: [None] is the nil pointer. *)
Definition ViewStateToJSON (state : option ViewState) : WorldJSON :=
  match state with
  | None => WorldJSON_zero
  | Some state =>
      let gridSize := gridSize (Z.of_nat (length (Lands state))) in
      let landsJSON := imap (landToJSON gridSize) (Lands state) in
      {| WorldJSON_Lands := Some landsJSON;
         WorldJSON_Summary :=
           {| SummaryJSON_LandCount := TotalLands (Summary state);
              SummaryJSON_ManalandCount := TotalManalands (Summary state);
              SummaryJSON_TreeCount := TotalTrees (Summary state);
              SummaryJSON_TreehouseCount := TotalTreehouses (Summary state);
              SummaryJSON_NimCount := TotalNims (Summary state);
              SummaryJSON_TotalRAM := TotalRAM (Summary state);
              SummaryJSON_RAMAllocated := AllocatedRAM (Summary state);
              SummaryJSON_Occupancy :=
                calculateOccupancy (AllocatedRAM (Summary state))
                                   (TotalRAM (Summary state)) |} |}
  end.

(** *** The document written by [encoding/json] *)

Inductive json : Type :=
| JNull
| JBool (b : bool)
| JInt (z : Z)
| JFloat (f : float)
| JString (s : string)
| JArray (items : list json)
| JObject (fields : list (string * json)).

(** [json.Marshal] rejects NaN and the infinities. *)
Definition marshalFloat (f : float) : option json :=
  if is_finite f then Some (JFloat f) else None.

(** A field tagged [omitempty] is left out at its zero value. *)
Definition omitempty {A : Type} (empty : A -> bool) (key : string)
    (enc : A -> option json) (a : A) : option (list (string * json)) :=
  if empty a then Some [] else v ← enc a; Some [(key, v)].

Definition field {A : Type} (key : string) (enc : A -> option json) (a : A)
  : option (list (string * json)) :=
  v ← enc a; Some [(key, v)].

Definition marshalSlice {A : Type} (enc : A -> option json) (s : slice A)
  : option json :=
  match s with
  | None => Some JNull
  | Some l => JArray <$> mapM enc l
  end.

Definition slice_empty {A : Type} (s : slice A) : bool :=
  match s with
  | None | Some [] => true
  | _ => false
  end.

Definition marshalInt (z : Z) : option json := Some (JInt z).
Definition marshalString (s : string) : option json := Some (JString s).
Definition marshalBool (b : bool) : option json := Some (JBool b).

Definition object (fs : list (option (list (string * json)))) : option json :=
  (fun l => JObject (concat l)) <$> mapM id fs.

Definition marshalProcessJSON (p : ProcessJSON) : option json :=
  object
    [ field "id" marshalString (ProcessJSON_ID p);
      field "name" marshalString (ProcessJSON_Name p);
      field "ram_allocated" marshalInt (ProcessJSON_RAMAllocated p);
      field "type" marshalString (ProcessJSON_Type p);
      omitempty (fun f => PrimFloat.eqb f 0) "progress" marshalFloat (ProcessJSON_Progress p);
      omitempty slice_empty "subjects" (marshalSlice marshalString) (ProcessJSON_Subjects p);
      omitempty (String.eqb "") "script_path" marshalString (ProcessJSON_ScriptPath p);
      omitempty negb "ai_enabled" marshalBool (ProcessJSON_AIEnabled p);
      omitempty (String.eqb "") "model" marshalString (ProcessJSON_Model p) ].

Definition marshalLandJSON (l : LandJSON) : option json :=
  object
    [ field "id" marshalString (LandJSON_ID l);
      field "hostname" marshalString (LandJSON_Hostname l);
      field "ram_total" marshalInt (LandJSON_RAMTotal l);
      field "ram_allocated" marshalInt (LandJSON_RAMAllocated l);
      omitempty (Z.eqb 0) "cpu_cores" marshalInt (LandJSON_CPUCores l);
      omitempty (fun f => PrimFloat.eqb f 0) "cpu_freq_ghz" marshalFloat (LandJSON_CPUFreqGHz l);
      omitempty (Z.eqb 0) "gpu_vram" marshalInt (LandJSON_GPUVram l);
      omitempty (fun f => PrimFloat.eqb f 0) "gpu_tflops" marshalFloat (LandJSON_GPUTflops l);
      field "occupancy" marshalFloat (LandJSON_Occupancy l);
      field "is_manaland" marshalBool (LandJSON_IsManaland l);
      field "grid_x" marshalInt (LandJSON_GridX l);
      field "grid_y" marshalInt (LandJSON_GridY l);
      field "trees" (marshalSlice marshalProcessJSON) (LandJSON_Trees l);
      field "treehouses" (marshalSlice marshalProcessJSON) (LandJSON_Treehouses l);
      field "nims" (marshalSlice marshalProcessJSON) (LandJSON_Nims l) ].

Definition marshalSummaryJSON (s : SummaryJSON) : option json :=
  object
    [ field "land_count" marshalInt (SummaryJSON_LandCount s);
      field "manaland_count" marshalInt (SummaryJSON_ManalandCount s);
      field "tree_count" marshalInt (SummaryJSON_TreeCount s);
      field "treehouse_count" marshalInt (SummaryJSON_TreehouseCount s);
      field "nim_count" marshalInt (SummaryJSON_NimCount s);
      field "total_ram" marshalInt (SummaryJSON_TotalRAM s);
      field "ram_allocated" marshalInt (SummaryJSON_RAMAllocated s);
      field "occupancy" marshalFloat (SummaryJSON_Occupancy s) ].

(** [json.Marshal(worldJSON)]: the document, or [None] for the
    [UnsupportedValueError]. *)
Definition marshalWorldJSON (w : WorldJSON) : option json :=
  object
    [ field "lands" (marshalSlice marshalLandJSON) (WorldJSON_Lands w);
      field "summary" marshalSummaryJSON (WorldJSON_Summary w) ].

Definition ViewStateToJSONBytes (state : option ViewState) : option json :=
  marshalWorldJSON (ViewStateToJSON state).

(** ** target_web.go *)

Module Web.

(** [http.Server{Addr: t.addr, Handler: t.Handler()}], once listening. *)
Record Server := { Addr : string }.

Record WebTarget := {
  addr : string;
  server : option Server;
  state : option ViewState;
  webDir : string;
  started : bool
}.

Definition WebOption : Type := WebTarget -> WebTarget.

Definition WithWebDir (dir : string) : WebOption :=
  fun t => {| addr := addr t; server := server t; state := state t;
              webDir := dir; started := started t |}.

Definition NewWebTarget (a : string) (opts : list WebOption) : WebTarget :=
  fold_left (fun target opt => opt target) opts
    {| addr := a; server := None; state := None; webDir := ""; started := false |}.

Definition Name (t : WebTarget) : string := "WebTarget(" +:+ addr t +:+ ")".

Definition start (t : WebTarget) : WebTarget * option error :=
  if started t then (t, None)
  else ({| addr := addr t; server := Some {| Addr := addr t |};
           state := state t; webDir := webDir t; started := true |}, None).

Definition Update (t : WebTarget) (st : option ViewState) : WebTarget * option error :=
  let wasStarted := started t in
  let t := {| addr := addr t; server := server t; state := st;
              webDir := webDir t; started := started t |} in
  if negb wasStarted then start t else (t, None).

(** What a handler leaves in its [http.ResponseWriter]: the status line
    (200 unless the handler says otherwise), the headers it set, and the
    documents it wrote to the body. *)
Record Response := {
  status : Z;
  header : list (string * string);
  body : list json
}.

Definition StatusOK : Z := 200.

(** [json.NewEncoder(w).Encode(v)]: one document on success, nothing written
    when marshalling fails (the handler drops that error). *)
Definition Encode (v : WorldJSON) : list json :=
  match marshalWorldJSON v with
  | Some doc => [doc]
  | None => []
  end.

Definition handleViewmodel (t : WebTarget) : Response :=
  let state := state t in
  let hdr := [("Content-Type", "application/json");
              ("Access-Control-Allow-Origin", "*")] in
  match state with
  | None => {| status := StatusOK; header := hdr; body := Encode WorldJSON_zero |}
  | Some _ =>
      let worldJSON := ViewStateToJSON state in
      {| status := StatusOK; header := hdr; body := Encode worldJSON |}
  end.

(** [Shutdown] with the background context waits for the connections to
    go idle; the error it may pass on from closing the listener is left
    out. *)
Definition Close (t : WebTarget) : WebTarget * option error := (t, None).

Definition URL (t : WebTarget) : string := "http://localhost" +:+ addr t.

End Web.

(** ** state_provider.go *)

(** A provider is called on behalf of the embedding program; a callback may
    read and change that program's own state [Env], nothing else. *)
Inductive StateProvider (Env : Type) : Type :=
| StaticStateProvider (state : option ViewState)
| CallbackStateProvider (fn : Env -> Env * (option ViewState * option error)).

Arguments StaticStateProvider {Env} state.
Arguments CallbackStateProvider {Env} fn.

Definition GetViewState {Env : Type} (p : StateProvider Env) (env : Env)
  : Env * (option ViewState * option error) :=
  match p with
  | StaticStateProvider state => (env, (state, None))
  | CallbackStateProvider fn => fn env
  end.

(** ** target.go *)

(** The [Target] interface over the state [obj] of the objects behind it. *)
Class Target (obj : Type) : Type := {
  Target_Update : obj -> option ViewState -> obj * option error;
  Target_Close : obj -> obj * option error;
  Target_Name : obj -> string
}.

#[export] Instance WebTarget_Target : Target Web.WebTarget :=
  {| Target_Update := Web.Update;
     Target_Close := Web.Close;
     Target_Name := Web.Name |}.

(** What a Go call does: it returns, or the goroutine panics. *)
Inductive outcome (A : Type) : Type :=
| Returned (a : A)
| Panicked.

Arguments Returned {A} a.
Arguments Panicked {A}.

(** ** viewer.go *)

Module Viewer.

(** A target is held by reference. *)
Definition loc : Type := nat.

(** A [context.Context] made by [context.WithCancel]: the identity of its own
    cancellation first, then those of its ancestors; [context.Background()]
    is the empty chain. *)
Definition Ctx : Type := list nat.

Definition Background : Ctx := [].

Section Viewer.

Context {obj Env : Type} `{!Target obj}.

Record Viewer := {
  provider : option (StateProvider Env);
  targets : list loc;
  interval : Z;
  cancel : option nat;
  done_closed : bool
}.

(** One recorded call of a target's [Update]: the target, the name it
    reports after the call, and what the call returned. *)
Record call := {
  call_target : loc;
  call_name : string;
  call_err : option error
}.

Record World := {
  viewer : Viewer;
  heap : gmap loc obj;
  env : Env;
  cancelled : gset nat;
  next_ctx : nat;
  goroutines : list Ctx;
  calls : list call
}.

Definition with_viewer (w : World) (v : Viewer) : World :=
  {| viewer := v; heap := heap w; env := env w; cancelled := cancelled w;
     next_ctx := next_ctx w; goroutines := goroutines w; calls := calls w |}.

Definition with_env (w : World) (e : Env) : World :=
  {| viewer := viewer w; heap := heap w; env := e; cancelled := cancelled w;
     next_ctx := next_ctx w; goroutines := goroutines w; calls := calls w |}.

Definition with_goroutines (w : World) (gs : list Ctx) : World :=
  {| viewer := viewer w; heap := heap w; env := env w; cancelled := cancelled w;
     next_ctx := next_ctx w; goroutines := gs; calls := calls w |}.

(** The effect on the world of one target call. *)
Definition with_target (w : World) (t : loc) (o : obj) (c : list call) : World :=
  {| viewer := viewer w; heap := <[t := o]> (heap w); env := env w;
     cancelled := cancelled w; next_ctx := next_ctx w;
     goroutines := goroutines w; calls := calls w ++ c |}.

Definition set_provider (v : Viewer) (p : option (StateProvider Env)) : Viewer :=
  {| provider := p; targets := targets v; interval := interval v;
     cancel := cancel v; done_closed := done_closed v |}.

Definition set_targets (v : Viewer) (ts : list loc) : Viewer :=
  {| provider := provider v; targets := ts; interval := interval v;
     cancel := cancel v; done_closed := done_closed v |}.

Definition set_interval (v : Viewer) (d : Z) : Viewer :=
  {| provider := provider v; targets := targets v; interval := d;
     cancel := cancel v; done_closed := done_closed v |}.

Definition set_cancel (v : Viewer) (c : option nat) : Viewer :=
  {| provider := provider v; targets := targets v; interval := interval v;
     cancel := c; done_closed := done_closed v |}.

Definition set_done_closed (v : Viewer) (b : bool) : Viewer :=
  {| provider := provider v; targets := targets v; interval := interval v;
     cancel := cancel v; done_closed := b |}.

(** *** Contexts *)

(** [<-ctx.Done()] is ready. *)
Definition ctx_done (w : World) (c : Ctx) : bool :=
  existsb (fun id => bool_decide (id ∈ cancelled w)) c.

(** Calling the [CancelFunc] of the context with identity [id]. *)
Definition cancel_ctx (id : nat) (w : World) : World :=
  {| viewer := viewer w; heap := heap w; env := env w;
     cancelled := {[id]} ∪ cancelled w;
     next_ctx := next_ctx w; goroutines := goroutines w; calls := calls w |}.

(** [context.WithCancel(parent)]. *)
Definition WithCancel (parent : Ctx) (w : World) : Ctx * nat * World :=
  let id := next_ctx w in
  (id :: parent, id,
   {| viewer := viewer w; heap := heap w; env := env w; cancelled := cancelled w;
      next_ctx := S id; goroutines := goroutines w; calls := calls w |}).

(** *** Construction and configuration *)

Definition Option : Type := Viewer -> Viewer.

Definition Second : Z := 1000000000.

Definition WithInterval (d : Z) : Option := fun v => set_interval v d.

Definition New (opts : list Option) : Viewer :=
  fold_left (fun v opt => opt v) opts
    {| provider := None; targets := []; interval := Second;
       cancel := None; done_closed := false |}.

(** A process that has just built its viewer and its target objects. *)
Definition boot (v : Viewer) (h : gmap loc obj) (e : Env) : World :=
  {| viewer := v; heap := h; env := e; cancelled := ∅; next_ctx := 0%nat;
     goroutines := []; calls := [] |}.

Definition SetStateProvider (p : option (StateProvider Env)) (w : World) : World :=
  with_viewer w (set_provider (viewer w) p).

Definition AddTarget (t : loc) (w : World) : World * option error :=
  (with_viewer w (set_targets (viewer w) (targets (viewer w) ++ [t])), None).

(** The first occurrence of [t] is cut out of the slice. *)
Fixpoint remove_first (t : loc) (ts : list loc) : list loc :=
  match ts with
  | [] => []
  | target :: rest => if Nat.eqb target t then rest else target :: remove_first t rest
  end.

Definition RemoveTarget (t : loc) (w : World) : World :=
  with_viewer w (set_targets (viewer w) (remove_first t (targets (viewer w)))).

(** *** Update *)

(** The [range targets] loop of [Update], with [lastErr] threaded through.
    A reference with no object behind it is the nil interface value, and
    calling through it panics. *)
Fixpoint fanout (ts : list loc) (state : option ViewState) (w : World)
    (lastErr : option error) : outcome (World * option error) :=
  match ts with
  | [] => Returned (w, lastErr)
  | target :: rest =>
      match heap w !! target with
      | None => Panicked
      | Some o =>
          let '(o', err) := Target_Update o state in
          let w' := with_target w target o'
                      [{| call_target := target; call_name := Target_Name o';
                          call_err := err |}] in
          match err with
          | Some e =>
              fanout rest state w'
                (Some (Errorf_w ("target " +:+ Target_Name o' +:+ ": ") e))
          | None => fanout rest state w' lastErr
          end
      end
  end.

Definition Update (w : World) : outcome (World * option error) :=
  let provider := provider (viewer w) in
  let targets := targets (viewer w) in
  match provider with
  | None => Returned (w, Some (errorString "no state provider set"))
  | Some p =>
      let '(e, (state, err)) := GetViewState p (env w) in
      let w := with_env w e in
      match err with
      | Some err => Returned (w, Some (Errorf_w "failed to get view state: " err))
      | None => fanout targets state w None
      end
  end.

(** *** Start, run, Stop *)

Definition AlreadyStarted : error := errorString "viewer already started".

Definition Start (ctx : Ctx) (w : World) : outcome (World * option error) :=
  match cancel (viewer w) with
  | Some _ => Returned (w, Some AlreadyStarted)
  | None =>
      let '(ctx, id, w) := WithCancel ctx w in
      let w := with_viewer w (set_cancel (viewer w) (Some id)) in
      match Update w with
      | Panicked => Panicked
      | Returned (w, Some err) => Returned (w, Some err)
      | Returned (w, None) => Returned (with_goroutines w (goroutines w ++ [ctx]), None)
      end
  end.

Fixpoint remove_goroutine (c : Ctx) (gs : list Ctx) : list Ctx :=
  match gs with
  | [] => []
  | g :: rest => if bool_decide (g = c) then rest else g :: remove_goroutine c rest
  end.

(** [run] returns: its deferred [close(v.done)] and [ticker.Stop()]. *)
Definition run_exit (c : Ctx) (w : World) : World :=
  with_goroutines (with_viewer w (set_done_closed (viewer w) true))
                  (remove_goroutine c (goroutines w)).

(** What can happen behind the caller's back: a [run] goroutine takes the
    ticker branch of its [select] and refreshes, dropping the error; a [run]
    goroutine whose context is done returns and closes [done]; somebody who
    holds a context cancels it. A [run] that returns when [done] is closed
    already panics on the second [close]: it has no step here. *)
Inductive bg_step : World -> World -> Prop :=
| bg_tick (c : Ctx) (w w' : World) (r : option error) :
    c ∈ goroutines w ->
    Update w = Returned (w', r) ->
    bg_step w w'
| bg_exit (c : Ctx) (w : World) :
    c ∈ goroutines w ->
    ctx_done w c = true ->
    done_closed (viewer w) = false ->
    bg_step w (run_exit c w)
| bg_cancel (id : nat) (w : World) :
    bg_step w (cancel_ctx id w).

(** The part of [Stop] under the lock. *)
Definition Stop_signal (w : World) : World :=
  match cancel (viewer w) with
  | Some id => with_viewer (cancel_ctx id w) (set_cancel (viewer w) None)
  | None => w
  end.

(** [Stop] then waits on [<-v.done]: it returns in a world reached by
    background steps in which [done] is closed. *)
Definition Stop_returns (w w' : World) : Prop :=
  rtc bg_step (Stop_signal w) w' /\ done_closed (viewer w') = true.

(** No run of the background ever lets a pending [Stop] return. *)
Definition Stop_blocks_forever (w : World) : Prop :=
  forall w', rtc bg_step (Stop_signal w) w' -> done_closed (viewer w') = false.

(** *** Close *)

Fixpoint closeAll (ts : list loc) (w : World) (lastErr : option error)
  : outcome (World * option error) :=
  match ts with
  | [] => Returned (w, lastErr)
  | target :: rest =>
      match heap w !! target with
      | None => Panicked
      | Some o =>
          let '(o', err) := Target_Close o in
          let w' := with_target w target o' [] in
          match err with
          | Some e => closeAll rest w' (Some e)
          | None => closeAll rest w' lastErr
          end
      end
  end.

Definition Close (w : World) : outcome (World * option error) :=
  let w := Stop_signal w in
  let targets := targets (viewer w) in
  let w := with_viewer w (set_targets (viewer w) []) in
  closeAll targets w None.

(** *** Programs over one viewer *)

(** The calls a client can make that neither stop nor close the viewer. *)
Inductive op : Type :=
| OpSetStateProvider (p : option (StateProvider Env))
| OpAddTarget (t : loc)
| OpRemoveTarget (t : loc)
| OpUpdate
| OpStart (ctx : Ctx).

Definition exec (o : op) (w : World) : outcome (World * option error) :=
  match o with
  | OpSetStateProvider p => Returned (SetStateProvider p w, None)
  | OpAddTarget t => Returned (AddTarget t w)
  | OpRemoveTarget t => Returned (RemoveTarget t w, None)
  | OpUpdate => Update w
  | OpStart ctx => Start ctx w
  end.

(** One step of a run without [Stop] or [Close]: a client call that returns,
    or a background step. *)
Inductive quiet_step : World -> World -> Prop :=
| quiet_op (o : op) (w w' : World) (r : option error) :
    exec o w = Returned (w', r) -> quiet_step w w'
| quiet_bg (w w' : World) :
    bg_step w w' -> quiet_step w w'.

End Viewer.

Arguments Viewer : clear implicits.
Arguments World : clear implicits.
Arguments op : clear implicits.

End Viewer.

(** ** adapter_sprites.go *)

Record sprites_Land := {
  sprites_Land_ID : string;
  sprites_Land_Name : string;
  sprites_Land_X : float;
  sprites_Land_Y : float;
  sprites_Land_Type : string
}.

Record sprites_Process := {
  sprites_Process_ID : string;
  sprites_Process_LandID : string;
  sprites_Process_Type : string;
  sprites_Process_Progress : float;
  sprites_Process_X : float;
  sprites_Process_Y : float
}.

Record SpritesStateAdapter := { viewState : option ViewState }.

Definition NewSpritesStateAdapter (state : option ViewState) : SpritesStateAdapter :=
  {| viewState := state |}.

Definition SpritesStateAdapter_Lands (a : SpritesStateAdapter) : list sprites_Land :=
  match viewState a with
  | None => []
  | Some vs =>
      map (fun land =>
        let landType := if LandView_IsManaland land then "mana" else "normal" in
        {| sprites_Land_ID := LandView_ID land;
           sprites_Land_Name := LandView_Hostname land;
           sprites_Land_X := float64_of_Z (LandView_GridX land);
           sprites_Land_Y := float64_of_Z (LandView_GridY land);
           sprites_Land_Type := landType |}) (Lands vs)
  end.

Definition land_processes (land : LandView) (kind : string) (procs : list ProcessView)
  : list sprites_Process :=
  map (fun proc =>
    {| sprites_Process_ID := ProcessView_ID proc;
       sprites_Process_LandID := LandView_ID land;
       sprites_Process_Type := kind;
       sprites_Process_Progress := ProcessView_Progress proc;
       sprites_Process_X := float64_of_Z (LandView_GridX land);
       sprites_Process_Y := float64_of_Z (LandView_GridY land) |}) procs.

Definition SpritesStateAdapter_Processes (a : SpritesStateAdapter) : list sprites_Process :=
  match viewState a with
  | None => []
  | Some vs =>
      concat (map (fun land =>
        land_processes land "tree" (LandView_Trees land) ++
        land_processes land "treehouse" (LandView_Treehouses land) ++
        land_processes land "nim" (LandView_Nims land)) (Lands vs))
  end.

(** ** Code that talks to the outside *)

(** A computation over the world [W] outside the Go heap. *)
Definition M (W A : Type) : Type := W -> A * W.

#[export] Instance M_ret {W : Type} : MRet (M W) := fun A a w => (a, w).
#[export] Instance M_bind {W : Type} : MBind (M W) :=
  fun A B k c w => let '(a, w') := c w in k a w'.

Definition bytes : Type := list Byte.byte.

(** [bytes.Equal]: a nil slice and an empty one are equal. *)
Fixpoint bytes_Equal (a b : bytes) : bool :=
  match a, b with
  | [], [] => true
  | x :: a', y :: b' => Byte.eqb x y && bytes_Equal a' b'
  | _, _ => false
  end.

Record sprites_Options := {
  Width : Z;
  Height : Z;
  FrameRate : Z;
  UseGPU : bool
}.

(** [smarttv.TV], as far as this package looks into it. *)
Record smarttv_TV := { TV_Name : string }.

(** ** target_smarttv.go *)

Module TV.

Section SmartTV.

(** [X] is everything outside the process: the renderer, the file system,
    the clock, the external programs, the network and the display. [Image]
    is a rendered frame. *)
Context {X Image : Type}.

(** The calls that leave the package. *)
Record Externals := {
  sprites_Render : SpritesStateAdapter -> M X (option Image);
  time_Now_UnixNano : M X Z;
  run_ffmpeg_still : Image -> string -> M X (option error);
  run_magick : string -> string -> M X (option error);
  os_ReadFile : string -> M X (bytes * option error);
  os_Remove : string -> M X unit;
  jpeg_Encode : Image -> bytes * option error;
  DisplayImageJPEG : option smarttv_TV -> bytes -> M X (option error)
}.

Context (E : Externals).

Record SmartTVTarget := {
  tv : option smarttv_TV;
  useJFIF : bool;
  spriteOpts : sprites_Options;
  lastImageBytes : bytes
}.

Definition set_lastImageBytes (t : SmartTVTarget) (b : bytes) : SmartTVTarget :=
  {| tv := tv t; useJFIF := useJFIF t; spriteOpts := spriteOpts t;
     lastImageBytes := b |}.

Definition TVOption : Type := SmartTVTarget -> SmartTVTarget.

Definition WithJFIF (enable : bool) : TVOption :=
  fun t => {| tv := tv t; useJFIF := enable; spriteOpts := spriteOpts t;
              lastImageBytes := lastImageBytes t |}.

Definition WithSpriteOptions (opts : sprites_Options) : TVOption :=
  fun t => {| tv := tv t; useJFIF := useJFIF t; spriteOpts := opts;
              lastImageBytes := lastImageBytes t |}.

(** The target [NewSmartTVTarget] builds when both renderers come up. *)
Definition NewSmartTVTarget (tv0 : option smarttv_TV) (opts : list TVOption)
  : SmartTVTarget :=
  fold_left (fun target opt => opt target) opts
    {| tv := tv0; useJFIF := true;
       spriteOpts := {| Width := 1920; Height := 1080; FrameRate := 30; UseGPU := false |};
       lastImageBytes := [] |}.

Definition Name (t : SmartTVTarget) : string :=
  match tv t with
  | Some d => "SmartTV(" +:+ TV_Name d +:+ ")"
  | None => "SmartTV"
  end.

(** What the world has seen of a target: every byte sequence an [Update]
    has encoded, and every push to the display with its outcome. *)
Inductive event : Type :=
| Encoded (b : bytes)
| Pushed (b : bytes) (result : option error).

Record World := {
  ext : X;
  trace : list event
}.

(** An external call, run on the outside part of the world. *)
Definition call {A : Type} (c : M X A) : M World A :=
  fun w => let '(a, x) := c (ext w) in (a, {| ext := x; trace := trace w |}).

Definition emit (e : event) : M World unit :=
  fun w => ((), {| ext := ext w; trace := trace w ++ [e] |}).

Definition convertToJFIF (img : Image) : M World (bytes * option error) :=
  n1 ← call (time_Now_UnixNano E);
  let tmpFile := "/tmp/viewer_" +:+ pretty n1 +:+ ".jpg" in
  n2 ← call (time_Now_UnixNano E);
  let jfifFile := "/tmp/viewer_" +:+ pretty n2 +:+ "_jfif.jpg" in
  r ← (err ← call (run_ffmpeg_still E img tmpFile);
       match err with
       | Some err => mret ([], Some (Errorf_w "ffmpeg: " err))
       | None =>
           err ← call (run_magick E tmpFile jfifFile);
           match err with
           | Some _ => call (os_ReadFile E tmpFile)
           | None => call (os_ReadFile E jfifFile)
           end
       end);
  _ ← call (os_Remove E jfifFile);
  _ ← call (os_Remove E tmpFile);
  mret r.

Definition encodeJPEG (img : Image) : M World (bytes * option error) :=
  mret (jpeg_Encode E img).

Definition Update (t : SmartTVTarget) (state : option ViewState)
  : M World (SmartTVTarget * option error) :=
  let adapter := NewSpritesStateAdapter state in
  frame ← call (sprites_Render E adapter);
  match frame with
  | None => mret (t, Some (errorString "failed to render frame"))
  | Some frame =>
      '(jpegData, err) ← (if useJFIF t then convertToJFIF frame else encodeJPEG frame);
      match err with
      | Some err => mret (t, Some (Errorf_w "convert to JPEG: " err))
      | None =>
          _ ← emit (Encoded jpegData);
          if bytes_Equal jpegData (lastImageBytes t) then mret (t, None)
          else
            let t := set_lastImageBytes t jpegData in
            err ← call (DisplayImageJPEG E (tv t) jpegData);
            _ ← emit (Pushed jpegData err);
            match err with
            | Some err => mret (t, Some (Errorf_w "display on TV: " err))
            | None => mret (t, None)
            end
      end
  end.

(** A sequence of [Update] calls on one target. *)
Fixpoint run (states : list (option ViewState)) (t : SmartTVTarget)
  : M World (SmartTVTarget * list (option error)) :=
  match states with
  | [] => mret (t, [])
  | state :: rest =>
      '(t, r) ← Update t state;
      '(t, rs) ← run rest t;
      mret (t, r :: rs)
  end.

(** The byte sequences encoded, in order. *)
Definition encoded_of (tr : list event) : list bytes :=
  omap (fun e => match e with Encoded b => Some b | Pushed _ _ => None end) tr.

(** The byte sequences pushed, in order. *)
Definition pushed_of (tr : list event) : list bytes :=
  omap (fun e => match e with Pushed b _ => Some b | Encoded _ => None end) tr.

(** The byte sequences whose push succeeded, in order. *)
Definition delivered_of (tr : list event) : list bytes :=
  omap (fun e => match e with Pushed b None => Some b | _ => None end) tr.

End SmartTV.

Arguments Externals : clear implicits.
Arguments World : clear implicits.

End TV.

(** ** target_video.go *)

Module Video.

(** An encoder process started by [ffmpeg.Start] and not yet reaped by
    [ffmpeg.Wait]: the file it writes, whether its standard input is still
    open, and how many raw frames it has taken. *)
Record Proc := {
  output : string;
  stdin_open : bool;
  taken : nat
}.

(** The machine around the pipeline: the clock, the files on disk, the
    encoder process if one is running, the HTTP listener if one is up, and
    how often the renderer has been called. *)
Record World := {
  clock : Z;
  files : gmap string bytes;
  encoder : option Proc;
  listening : option Z;
  renders : nat
}.

Section Video.

(** How the collaborators behave during one run. The encoder is the
    external [ffmpeg]: it creates its output file when the first raw frame
    arrives and appends to it for every frame it takes. The context is done
    from the loop iteration [cancel_at] on. *)
Record Behaviour := {
  ffmpeg_found : option error;
  ffmpeg_encode : bytes -> bytes;
  ffmpeg_takes : nat -> option error;
  ffmpeg_exit : option error;
  render_frame : nat -> option bytes;
  cancel_at : option nat;
  stream_result : option error;
  tick : Z
}.

Context (B : Behaviour).

Record VideoTarget := {
  tv : option smarttv_TV;
  spriteOpts : sprites_Options;
  fps : Z;
  duration : Z;
  httpServer : option Z;
  videoFile : string;
  localIP : string;
  port : Z;
  state : option ViewState
}.

Definition set_state (t : VideoTarget) (s : option ViewState) : VideoTarget :=
  {| tv := tv t; spriteOpts := spriteOpts t; fps := fps t; duration := duration t;
     httpServer := httpServer t; videoFile := videoFile t; localIP := localIP t;
     port := port t; state := s |}.

Definition set_videoFile (t : VideoTarget) (f : string) : VideoTarget :=
  {| tv := tv t; spriteOpts := spriteOpts t; fps := fps t; duration := duration t;
     httpServer := httpServer t; videoFile := f; localIP := localIP t;
     port := port t; state := state t |}.

Definition set_httpServer (t : VideoTarget) (s : option Z) : VideoTarget :=
  {| tv := tv t; spriteOpts := spriteOpts t; fps := fps t; duration := duration t;
     httpServer := s; videoFile := videoFile t; localIP := localIP t;
     port := port t; state := state t |}.

Definition VideoOption : Type := VideoTarget -> VideoTarget.

Definition WithVideoFPS (n : Z) : VideoOption :=
  fun t => {| tv := tv t; spriteOpts := spriteOpts t; fps := n; duration := duration t;
              httpServer := httpServer t; videoFile := videoFile t;
              localIP := localIP t; port := port t; state := state t |}.

Definition WithVideoDuration (d : Z) : VideoOption :=
  fun t => {| tv := tv t; spriteOpts := spriteOpts t; fps := fps t; duration := d;
              httpServer := httpServer t; videoFile := videoFile t;
              localIP := localIP t; port := port t; state := state t |}.

Definition Second : Z := 1000000000.

(** The target [NewVideoTarget] builds when both renderers come up. *)
Definition NewVideoTarget (tv0 : option smarttv_TV) (ip : string) (opts : list VideoOption)
  : VideoTarget :=
  fold_left (fun target opt => opt target) opts
    {| tv := tv0;
       spriteOpts := {| Width := 1920; Height := 1080; FrameRate := 30; UseGPU := false |};
       fps := 10; duration := 60 * Second; httpServer := None; videoFile := "";
       localIP := ip; port := 8889; state := None |}.

Definition Name (t : VideoTarget) : string :=
  match tv t with
  | Some d => "VideoTarget(" +:+ TV_Name d +:+ ")"
  | None => "VideoTarget"
  end.

Definition Update (t : VideoTarget) (s : option ViewState) : VideoTarget * option error :=
  (set_state t s, None).

(** *** The operating system and the encoder *)

Definition time_Now_UnixNano : M World Z :=
  fun w => (clock w,
            {| clock := clock w + tick B; files := files w; encoder := encoder w;
               listening := listening w; renders := renders w |}).

Definition with_encoder (w : World) (p : option Proc) : World :=
  {| clock := clock w; files := files w; encoder := p;
     listening := listening w; renders := renders w |}.

(** [ffmpeg.Start()], the command writing to [out]. ([StdinPipe] before it
    cannot fail on a command that is fresh.) *)
Definition ffmpeg_Start (out : string) : M World (option error) :=
  fun w =>
    match ffmpeg_found B with
    | Some err => (Some err, w)
    | None => (None, with_encoder w (Some {| output := out; stdin_open := true; taken := 0 |}))
    end.

Definition EPIPE : error := errorString "write |1: broken pipe".

(** [ffmpegIn.Write(pix)]: it returns once the encoder has taken the frame. *)
Definition ffmpegIn_Write (pix : bytes) : M World (option error) :=
  fun w =>
    match encoder w with
    | Some p =>
        if stdin_open p then
          match ffmpeg_takes B (taken p) with
          | Some err => (Some err, w)
          | None =>
              let old := default [] (files w !! output p) in
              (None,
               {| clock := clock w;
                  files := <[output p := old ++ ffmpeg_encode B pix]> (files w);
                  encoder := Some {| output := output p; stdin_open := true;
                                     taken := S (taken p) |};
                  listening := listening w; renders := renders w |})
          end
        else (Some EPIPE, w)
    | None => (Some EPIPE, w)
    end.

Definition ffmpegIn_Close : M World unit :=
  fun w =>
    match encoder w with
    | Some p => ((), with_encoder w (Some {| output := output p; stdin_open := false;
                                             taken := taken p |}))
    | None => ((), w)
    end.

(** [ffmpeg.Wait()]: the process has ended and is reaped. *)
Definition ffmpeg_Wait : M World (option error) :=
  fun w => (ffmpeg_exit B, with_encoder w None).

Definition sprites_Render (adapter : SpritesStateAdapter) : M World (option bytes) :=
  fun w => (render_frame B (renders w),
            {| clock := clock w; files := files w; encoder := encoder w;
               listening := listening w; renders := S (renders w) |}).

Definition os_Remove (f : string) : M World unit :=
  fun w => ((), {| clock := clock w; files := delete f (files w); encoder := encoder w;
                   listening := listening w; renders := renders w |}).

(** [<-ctx.Done()] is ready at iteration [i]. *)
Definition ctx_Done (i : nat) : bool :=
  match cancel_at B with
  | Some k => (k <=? i)%nat
  | None => false
  end.

Definition Canceled : error := errorString "context canceled".

(** *** generateVideo *)

(** How the [for] loop over the frames is left: through the [return] of its
    cancellation branch, or by falling out of it (all frames done, or the
    [break] after a failed write). *)
Inductive loop_exit : Type :=
| ReturnedCanceled
| FellThrough.

(** The loop from iteration [i], with [n] iterations to go. *)
Fixpoint render_frames (adapter : SpritesStateAdapter) (n i : nat) : M World loop_exit :=
  match n with
  | O => mret FellThrough
  | S n' =>
      if ctx_Done i then
        _ ← ffmpegIn_Close;
        _ ← ffmpeg_Wait;
        mret ReturnedCanceled
      else
        frame ← sprites_Render adapter;
        match frame with
        | None => render_frames adapter n' (S i)
        | Some pix =>
            err ← ffmpegIn_Write pix;
            match err with
            | Some _ => mret FellThrough
            | None => render_frames adapter n' (S i)
            end
        end
  end.

Definition generateVideo (t : VideoTarget) (st : option ViewState)
  : M World (string * option error) :=
  let totalFrames := Z.quot (duration t) Second * fps t in
  now ← time_Now_UnixNano;
  let videoFile := "/tmp/nimsforest_viewer_" +:+ pretty now +:+ ".mp4" in
  err ← ffmpeg_Start videoFile;
  match err with
  | Some err => mret ("", Some (Errorf_w "start ffmpeg: " err))
  | None =>
      let adapter := NewSpritesStateAdapter st in
      out ← render_frames adapter (Z.to_nat totalFrames) 0;
      match out with
      | ReturnedCanceled => mret ("", Some Canceled)
      | FellThrough =>
          _ ← ffmpegIn_Close;
          err ← ffmpeg_Wait;
          match err with
          | Some err => mret ("", Some (Errorf_w "ffmpeg encode: " err))
          | None => mret (videoFile, None)
          end
      end
  end.

(** *** Start and Close *)

Definition startHTTPServer (t : VideoTarget) : M World (VideoTarget * option error) :=
  fun w => ((set_httpServer t (Some (port t)), None),
            {| clock := clock w; files := files w; encoder := encoder w;
               listening := Some (port t); renders := renders w |}).

Definition Start (t : VideoTarget) : M World (VideoTarget * option error) :=
  match state t with
  | None => mret (t, Some (errorString "no state set - call Update first"))
  | Some _ =>
      '(videoFile, err) ← generateVideo t (state t);
      match err with
      | Some err => mret (t, Some (Errorf_w "generate video: " err))
      | None =>
          let t := set_videoFile t videoFile in
          '(t, err) ← startHTTPServer t;
          match err with
          | Some err => mret (t, Some (Errorf_w "start HTTP server: " err))
          | None =>
              match stream_result B with
              | Some err => mret (t, Some (Errorf_w "stream to TV: " err))
              | None => mret (t, None)
              end
          end
      end
  end.

Definition Close (t : VideoTarget) : M World (VideoTarget * option error) :=
  _ ← (fun w => ((), match httpServer t with
                     | Some _ => {| clock := clock w; files := files w;
                                    encoder := encoder w; listening := None;
                                    renders := renders w |}
                     | None => w
                     end));
  _ ← (if String.eqb (videoFile t) "" then mret () else os_Remove (videoFile t));
  mret (t, None).

End Video.

End Video.

(** * Properties *)

(** ** Numeric conversions *)

(** Both branches of [float64_of_Z] are the one rounding. *)
Lemma float64_of_Z_round (z : Z) :
  float64_of_Z z = SF2Prim (binary_normalize prec emax z 0 false).
Proof.
  unfold float64_of_Z.
  destruct ((0 <=? z) && (z <=? maxInt64)) eqn:Hz; [|done].
  apply andb_prop in Hz as [H0 H1].
  rewrite <- (SF2Prim_Prim2SF (of_uint63 (Uint63.of_Z z))), of_uint63_spec.
  rewrite Uint63.of_Z_spec, Z.mod_small; [done|].
  change Uint63.wB with (maxInt64 + 1). lia.
Qed.

(** ** The JSON projection *)

Section JsonFacts.

#[local] Open Scope float_scope.

Lemma calculateOccupancy_zero_total (allocated : Z) :
  calculateOccupancy allocated 0 = 0.
Proof. reflexivity. Qed.

Lemma calculateOccupancy_ratio (allocated total : Z) :
  total ≠ 0%Z ->
  calculateOccupancy allocated total = float64_of_Z allocated / float64_of_Z total.
Proof.
  intros Hne. unfold calculateOccupancy.
  destruct (Z.eqb_spec total 0) as [->|_]; [contradiction|reflexivity].
Qed.

Lemma summary_occupancy_projection (state : ViewState) :
  SummaryJSON_Occupancy (WorldJSON_Summary (ViewStateToJSON (Some state))) =
  calculateOccupancy (AllocatedRAM (Summary state)) (TotalRAM (Summary state)).
Proof. reflexivity. Qed.

(** C5. The summary occupancy of the JSON projection is the binary64
    quotient allocated/total; it is exactly 0 (a finite number, not NaN)
    when the total is 0; and for TotalRAM = 56e9, AllocatedRAM = 23e9 it is
    0.4107142857142857, within 0.00005 of 0.4107. *)
Theorem summary_occupancy_spec (state : ViewState) :
  let occ := SummaryJSON_Occupancy (WorldJSON_Summary (ViewStateToJSON (Some state))) in
  let allocated := AllocatedRAM (Summary state) in
  let total := TotalRAM (Summary state) in
  (total = 0%Z -> occ = 0 /\ is_finite occ = true /\ PrimFloat.is_nan occ = false) /\
  (total ≠ 0%Z -> occ = float64_of_Z allocated / float64_of_Z total) /\
  (total = 56000000000%Z -> allocated = 23000000000%Z ->
     occ = 0.4107142857142857 /\
     PrimFloat.ltb (PrimFloat.abs (occ - 0.4107)) 0.00005 = true).
Proof.
  cbv zeta. rewrite summary_occupancy_projection.
  split; [|split].
  - intros ->. rewrite calculateOccupancy_zero_total. by vm_compute.
  - apply calculateOccupancy_ratio.
  - intros -> ->. by vm_compute.
Qed.

End JsonFacts.

(** A three-land snapshot with the totals of the scenario. *)
Definition land0 (id : string) (x y : Z) : LandView :=
  {| LandView_ID := id; LandView_Hostname := id;
     LandView_GridX := x; LandView_GridY := y;
     LandView_IsManaland := false; LandView_Occupancy := 0%float;
     LandView_RAMTotal := 0; LandView_RAMAllocated := 0;
     LandView_Trees := []; LandView_Treehouses := []; LandView_Nims := [] |}.

Definition summary0 (total allocated : Z) : SummaryView :=
  {| TotalLands := 3; TotalManalands := 0; TotalTrees := 0;
     TotalTreehouses := 0; TotalNims := 0;
     TotalRAM := total; AllocatedRAM := allocated |}.

Definition three_lands : ViewState :=
  {| Lands := [land0 "land-1" 0 0; land0 "land-2" 0 0; land0 "land-3" 5 7];
     Summary := summary0 56000000000 23000000000 |}.

Definition no_ram : ViewState :=
  {| Lands := []; Summary := summary0 0 23000000000 |}.

Lemma summary_occupancy_spec_witness :
  SummaryJSON_Occupancy (WorldJSON_Summary (ViewStateToJSON (Some no_ram))) = 0%float /\
  SummaryJSON_Occupancy (WorldJSON_Summary (ViewStateToJSON (Some three_lands)))
    = 0.4107142857142857%float.
Proof.
  split.
  - apply (summary_occupancy_spec no_ram). reflexivity.
  - apply (summary_occupancy_spec three_lands); reflexivity.
Defined.

(** *** The square-grid layout *)

(** [g] is the ceiling of the square root of [n]. *)
Definition is_ceil_sqrt (n g : Z) : Prop :=
  0 <= g /\ (g - 1) * (g - 1) < n <= g * g.

Definition is_ceil_sqrtb (n g : Z) : bool :=
  (0 <=? g) && ((g - 1) * (g - 1) <? n) && (n <=? g * g).

Lemma is_ceil_sqrtb_spec (n g : Z) :
  is_ceil_sqrtb n g = true <-> is_ceil_sqrt n g.
Proof. unfold is_ceil_sqrtb, is_ceil_sqrt. lia. Qed.

(** The largest number of lands for which the floating-point computation of
    the grid size is checked, one length at a time. *)
Definition max_lands : Z := 65536.

(** Checks the [k] lengths [n], [n+1], ..., [n+k-1]. *)
Fixpoint gridSize_checked_from (k : positive) (n : Z) : bool :=
  match k with
  | xH => is_ceil_sqrtb n (gridSize n)
  | xO k' => gridSize_checked_from k' n && gridSize_checked_from k' (n + Z.pos k')
  | xI k' =>
      is_ceil_sqrtb n (gridSize n) && gridSize_checked_from k' (n + 1)
      && gridSize_checked_from k' (n + 1 + Z.pos k')
  end.

Lemma gridSize_checked_from_spec (k : positive) : forall n m : Z,
  gridSize_checked_from k n = true ->
  n <= m < n + Z.pos k ->
  is_ceil_sqrt m (gridSize m).
Proof.
  induction k as [k IH|k IH|]; intros n m Hchk Hm; cbn [gridSize_checked_from] in Hchk.
  - apply andb_prop in Hchk as [Hchk H2]. apply andb_prop in Hchk as [H0 H1].
    destruct (Z.eq_dec m n) as [->|Hne]; [by apply is_ceil_sqrtb_spec|].
    destruct (Z_lt_le_dec m (n + 1 + Z.pos k)).
    + apply (IH (n + 1)); [done|lia].
    + apply (IH (n + 1 + Z.pos k)); [done|lia].
  - apply andb_prop in Hchk as [H1 H2].
    destruct (Z_lt_le_dec m (n + Z.pos k)).
    + apply (IH n); [done|lia].
    + apply (IH (n + Z.pos k)); [done|lia].
  - assert (m = n) as -> by lia. by apply is_ceil_sqrtb_spec.
Qed.

Lemma gridSize_checked : gridSize_checked_from 65536 1 = true.
Proof. vm_compute. reflexivity. Qed.

Lemma gridSize_is_ceil_sqrt (n : Z) :
  1 <= n <= max_lands -> is_ceil_sqrt n (gridSize n).
Proof.
  intros Hn. apply (gridSize_checked_from_spec 65536 1 n gridSize_checked).
  unfold max_lands in Hn. lia.
Qed.

Lemma gridSize_pos (n : Z) : 1 <= gridSize n.
Proof. unfold gridSize. case_match; lia. Qed.

Lemma is_ceil_sqrt_unique (n g g' : Z) :
  is_ceil_sqrt n g -> is_ceil_sqrt n g' -> g = g'.
Proof. unfold is_ceil_sqrt. nia. Qed.

Lemma landToJSON_grid (g : Z) (i : nat) (land : LandView) :
  (LandJSON_GridX (landToJSON g i land), LandJSON_GridY (landToJSON g i land)) =
  if (LandView_GridX land =? 0) && (LandView_GridY land =? 0) && (0 <? Z.of_nat i)
  then (Z.rem (Z.of_nat i) g, Z.quot (Z.of_nat i) g)
  else (LandView_GridX land, LandView_GridY land).
Proof. unfold landToJSON. by case_match. Qed.



Example three_lands_grid :
  (fun l => (LandJSON_GridX l, LandJSON_GridY l)) <$>
    default [] (WorldJSON_Lands (ViewStateToJSON (Some three_lands)))
  = [(0, 0); (1, 0); (5, 7)].
Proof. by vm_compute. Qed.

(** The bound in C6 is the price of the floating-point square root: one
    land past 2^52 the computed grid size is no longer the ceiling. *)
Example gridSize_rounds_down :
  gridSize (2 ^ 52 + 1) = 2 ^ 26 /\ is_ceil_sqrtb (2 ^ 52 + 1) (2 ^ 26) = false.
Proof. by vm_compute. Qed.

(** ** The viewmodel endpoint *)

(** The document [{"lands":null,"summary":{...zeros...}}]. *)
Definition empty_world_document : json :=
  JObject
    [("lands", JNull);
     ("summary",
      JObject [("land_count", JInt 0); ("manaland_count", JInt 0);
               ("tree_count", JInt 0); ("treehouse_count", JInt 0);
               ("nim_count", JInt 0); ("total_ram", JInt 0);
               ("ram_allocated", JInt 0); ("occupancy", JFloat 0)])].

(** C9. With no snapshot held, the viewmodel handler answers 200 with
    content type application/json and exactly one JSON document, the
    marshalled empty world (the projection of the absent snapshot). *)
Theorem handleViewmodel_absent (t : Web.WebTarget) :
  Web.state t = None ->
  Web.handleViewmodel t =
    {| Web.status := Web.StatusOK;
       Web.header := [("Content-Type", "application/json");
                      ("Access-Control-Allow-Origin", "*")];
       Web.body := [empty_world_document] |} /\
  marshalWorldJSON (ViewStateToJSON None) = Some empty_world_document.
Proof.
  intros Hnil. unfold Web.handleViewmodel. rewrite Hnil. split; by vm_compute.
Qed.

Lemma handleViewmodel_absent_witness :
  Web.handleViewmodel (Web.NewWebTarget ":8080" []) =
    {| Web.status := Web.StatusOK;
       Web.header := [("Content-Type", "application/json");
                      ("Access-Control-Allow-Origin", "*")];
       Web.body := [empty_world_document] |} /\
  marshalWorldJSON (ViewStateToJSON None) = Some empty_world_document.
Proof. apply (handleViewmodel_absent (Web.NewWebTarget ":8080" [])). reflexivity. Defined.

(** A snapshot that is present can still leave the body empty: the encoder
    refuses a NaN occupancy. *)
Example handleViewmodel_nan :
  Web.body (Web.handleViewmodel
    (fst (Web.Update (Web.NewWebTarget ":8080" [])
       (Some {| Lands := [ {| LandView_ID := "a"; LandView_Hostname := "a";
                              LandView_GridX := 0; LandView_GridY := 0;
                              LandView_IsManaland := false;
                              LandView_Occupancy := PrimFloat.nan;
                              LandView_RAMTotal := 0; LandView_RAMAllocated := 0;
                              LandView_Trees := []; LandView_Treehouses := [];
                              LandView_Nims := [] |} ];
                Summary := summary0 0 0 |})))) = [].
Proof. by vm_compute. Qed.

(** ** Strings *)

Lemma append_assoc (a b c : string) : (a +:+ b) +:+ c = a +:+ b +:+ c.
Proof.
  induction a as [|x a IH]; [done|].
  change ((String x a +:+ b) +:+ c) with (String x ((a +:+ b) +:+ c)).
  by rewrite IH.
Qed.

Lemma has_prefix_app (p s : string) : has_prefix p (p +:+ s) = true.
Proof.
  induction p as [|a p IH]; [done|].
  change (String a p +:+ s) with (String a (p +:+ s)).
  cbn [has_prefix]. by rewrite Ascii.eqb_refl.
Qed.

Lemma Contains_prefix (sub s : string) : Contains (sub +:+ s) sub = true.
Proof.
  destruct sub as [|a sub]; [by destruct s|].
  change (String a sub +:+ s) with (String a (sub +:+ s)).
  cbn [Contains]. apply orb_true_intro. left.
  apply (has_prefix_app (String a sub) s).
Qed.

Lemma Contains_app_r (a s sub : string) :
  Contains s sub = true -> Contains (a +:+ s) sub = true.
Proof.
  intros Hs. induction a as [|x a IH]; [done|].
  change (String x a +:+ s) with (String x (a +:+ s)).
  cbn [Contains]. rewrite IH. apply orb_true_r.
Qed.

Lemma Contains_middle (a sub b : string) : Contains (a +:+ sub +:+ b) sub = true.
Proof. apply Contains_app_r, Contains_prefix. Qed.

(** ** The fan-out of [Update] *)

Section ViewerFacts.

Context {obj Env : Type} `{!Target obj}.

Import Viewer.

#[local] Abbreviation World := (Viewer.World obj Env).

(** The error [Update] makes of a failed call. *)
Definition target_error (c : call) : option error :=
  (fun e => Errorf_w ("target " +:+ call_name c +:+ ": ") e) <$> call_err c.

(** [lastErr] after the calls [cs], from [init]. *)
Definition last_error (init : option error) (cs : list call) : option error :=
  fold_left (fun acc c => match target_error c with Some e => Some e | None => acc end)
            cs init.

Definition failed (c : call) : Prop := is_Some (call_err c).

#[local] Instance failed_dec (c : call) : Decision (failed c).
Proof. unfold failed. apply _. Defined.

Definition live (w : World) (ts : list loc) : Prop :=
  Forall (fun t => is_Some (heap w !! t)) ts.

Lemma last_error_app (init : option error) (cs ds : list call) :
  last_error init (cs ++ ds) = last_error (last_error init cs) ds.
Proof. unfold last_error. by rewrite fold_left_app. Qed.

Lemma last_error_succeeded (init : option error) (cs : list call) :
  Forall (fun c => call_err c = None) cs -> last_error init cs = init.
Proof.
  induction 1 as [|c cs Hc _ IH]; [done|].
  cbn. unfold target_error at 2. rewrite Hc. cbn. apply IH.
Qed.

Lemma last_error_last (init : option error) (pre post : list call) (c : call) (e : error) :
  call_err c = Some e ->
  Forall (fun c => call_err c = None) post ->
  last_error init (pre ++ c :: post) =
    Some (Errorf_w ("target " +:+ call_name c +:+ ": ") e).
Proof.
  intros Hc Hpost.
  rewrite last_error_app. cbn. unfold target_error at 2. rewrite Hc. cbn.
  apply (last_error_succeeded _ post Hpost).
Qed.

Lemma fanout_spec (ts : list loc) (state : option ViewState) :
  forall (w : World) (lastErr : option error),
  live w ts ->
  exists (w' : World) (cs : list call),
    fanout ts state w lastErr = Returned (w', last_error lastErr cs) /\
    calls w' = calls w ++ cs /\
    call_target <$> cs = ts /\
    viewer w' = viewer w /\ env w' = env w /\
    goroutines w' = goroutines w /\ cancelled w' = cancelled w /\
    next_ctx w' = next_ctx w /\
    dom (heap w') = dom (heap w).
Proof.
  induction ts as [|t ts IH]; intros w lastErr Hlive.
  - exists w, []. cbn. by rewrite app_nil_r.
  - apply Forall_cons in Hlive as [[o Ho] Hlive].
    cbn [fanout]. rewrite Ho.
    destruct (Target_Update o state) as [o' err] eqn:Hupd.
    set (c := {| call_target := t; call_name := Target_Name o'; call_err := err |}).
    set (w1 := with_target w t o' [c]).
    assert (Hdom : dom (heap w1) = dom (heap w)).
    { apply dom_insert_lookup_L. by exists o. }
    assert (Hlive1 : live w1 ts).
    { eapply Forall_impl; [exact Hlive|]. intros t' Ht'.
      apply elem_of_dom. rewrite Hdom. by apply elem_of_dom. }
    set (acc := match target_error c with Some e => Some e | None => lastErr end).
    destruct (IH w1 acc Hlive1)
      as (w' & cs & Hrun & Hcalls & Htargets & Hv & He & Hg & Hcan & Hn & Hd).
    exists w', (c :: cs).
    split; [destruct err as [e|]; exact Hrun|].
    split; [rewrite Hcalls; cbn; by rewrite <- app_assoc|].
    split; [cbn; by rewrite Htargets|].
    by rewrite Hv, He, Hg, Hcan, Hn, Hd, Hdom.
Qed.

Lemma count_in_NoDup (ts : list loc) (t : loc) :
  NoDup ts -> t ∈ ts -> length (filter (fun x => x = t) ts) = 1%nat.
Proof.
  induction 1 as [|x ts Hx Hnd IH]; intros Hin; [by apply elem_of_nil in Hin|].
  rewrite filter_cons. destruct (decide (x = t)) as [->|Hne].
  - cbn. f_equal. apply length_zero_iff_nil.
    destruct (filter (fun x => x = t) ts) as [|y l] eqn:Hf; [done|].
    assert (y ∈ filter (fun x => x = t) ts) as Hy by (rewrite Hf; apply elem_of_cons; by left).
    apply list_elem_of_filter in Hy as [-> Hy]. done.
  - apply IH. apply elem_of_cons in Hin as [->|Hin]; done.
Qed.

Lemma filter_call_target (cs : list call) (t : loc) :
  length (filter (fun c => call_target c = t) cs) =
  length (filter (fun x => x = t) (call_target <$> cs)).
Proof.
  induction cs as [|c cs IH]; [done|].
  rewrite fmap_cons, !filter_cons.
  destruct (decide (call_target c = t)); cbn; by rewrite IH.
Qed.

Lemma filter_singleton_split (cs : list call) (c : call) :
  filter failed cs = [c] ->
  exists pre post, cs = pre ++ c :: post /\
    Forall (fun c => call_err c = None) pre /\
    Forall (fun c => call_err c = None) post /\
    failed c.
Proof.
  induction cs as [|d cs IH]; [done|].
  rewrite filter_cons. destruct (decide (failed d)) as [Hd|Hd].
  - intros [= -> Hrest]. exists [], cs. split; [done|]. split; [done|]. split; [|done].
    apply Forall_forall. intros x Hx.
    destruct (call_err x) eqn:Hcx; [|done].
    assert (x ∈ filter failed cs) as Hin.
    { apply list_elem_of_filter. split; [|done]. unfold failed. by rewrite Hcx. }
    rewrite Hrest in Hin. by apply elem_of_nil in Hin.
  - intros Hf. destruct (IH Hf) as (pre & post & -> & Hpre & Hpost & Hc).
    exists (d :: pre), post. split; [done|]. split; [|done].
    constructor; [|done]. unfold failed in Hd.
    destruct (call_err d); [|done]. exfalso. by apply Hd.
Qed.

(** Targets are refreshed in the order they were added in. *)
Lemma AddTarget_appends (t : loc) (w : World) :
  targets (viewer (AddTarget t w).1) = targets (viewer w) ++ [t] /\
  (AddTarget t w).2 = None.
Proof. done. Qed.

(** Once the provider has delivered a snapshot, [Update] calls every target
    once, in slice order, and returns the [lastErr] of those calls. *)
Lemma Update_spec (w : World) (p : StateProvider Env) :
  provider (viewer w) = Some p ->
  (GetViewState p (env w)).2.2 = None ->
  live w (targets (viewer w)) ->
  exists (w' : World) (cs : list call),
    Update w = Returned (w', last_error None cs) /\
    calls w' = calls w ++ cs /\
    call_target <$> cs = targets (viewer w) /\
    viewer w' = viewer w /\
    goroutines w' = goroutines w /\ cancelled w' = cancelled w /\
    next_ctx w' = next_ctx w.
Proof.
  intros Hp Hfetch Hlive. unfold Update. rewrite Hp.
  destruct (GetViewState p (env w)) as [e [state err]] eqn:Hget.
  cbn in Hfetch. subst err.
  destruct (fanout_spec (targets (viewer w)) state (with_env w e) None Hlive)
    as (w' & cs & Hrun & Hcalls & Htargets & Hv & _ & Hg & Hcan & Hn & _).
  exists w', cs. by rewrite Hrun, Hcalls, Htargets, Hv, Hg, Hcan, Hn.
Qed.



(** C3. With no provider set, or when the provider's fetch fails, [Update]
    returns an error (the configuration error, or the fetch error wrapped)
    and has called no target: the call log, every target object, the target
    slice and the rest of the viewer are as before. *)
Theorem Update_aborts_before_fanout (w : World) :
  provider (viewer w) = None \/
  (exists p e, provider (viewer w) = Some p /\ (GetViewState p (env w)).2.2 = Some e) ->
  exists (w' : World) (err : error),
    Update w = Returned (w', Some err) /\
    (provider (viewer w) = None -> err = errorString "no state provider set") /\
    (forall p e, provider (viewer w) = Some p ->
                 (GetViewState p (env w)).2.2 = Some e ->
                 err = Errorf_w "failed to get view state: " e) /\
    calls w' = calls w /\
    heap w' = heap w /\
    targets (viewer w') = targets (viewer w) /\
    viewer w' = viewer w /\
    goroutines w' = goroutines w.
Proof.
  intros [Hnone | (p & e & Hp & Hfetch)]; unfold Update.
  - rewrite Hnone. exists w, (errorString "no state provider set").
    split; [done|]. split; [done|]. split; [|done]. intros ? ? [=].
  - rewrite Hp. destruct (GetViewState p (env w)) as [env' [state err]] eqn:Hget.
    cbn in Hfetch. subst err.
    exists (with_env w env'), (Errorf_w "failed to get view state: " e).
    split; [done|]. split; [done|]. split; [|done].
    intros p' e' Hp' Hf. injection Hp' as <-.
    rewrite Hget in Hf. cbn in Hf. congruence.
Qed.

End ViewerFacts.

(** *** A recording target, for concrete runs *)

Record Recorder := {
  rec_name : string;
  rec_fail : option error;
  rec_seen : list (option ViewState)
}.

#[export] Instance Recorder_Target : Target Recorder :=
  {| Target_Update := fun r st =>
       ({| rec_name := rec_name r; rec_fail := rec_fail r;
           rec_seen := rec_seen r ++ [st] |}, rec_fail r);
     Target_Close := fun r => (r, None);
     Target_Name := rec_name |}.

Definition recorder (name : string) (fail : option error) : Recorder :=
  {| rec_name := name; rec_fail := fail; rec_seen := [] |}.

(** A viewer over three recorders, added in the order alpha, beta, gamma. *)
Definition three_recorders (p : option (StateProvider unit)) (a b c : Recorder)
  : Viewer.World Recorder unit :=
  let w := Viewer.boot (Viewer.New []) (list_to_map [(0%nat, a); (1%nat, b); (2%nat, c)]) () in
  let w := Viewer.SetStateProvider p w in
  let w := (Viewer.AddTarget 0%nat w).1 in
  let w := (Viewer.AddTarget 1%nat w).1 in
  (Viewer.AddTarget 2%nat w).1.

Definition static_three : StateProvider unit := StaticStateProvider (Some three_lands).

Definition failing_provider : StateProvider unit :=
  CallbackStateProvider (fun e => (e, (None, Some (errorString "upstream down")))).

Definition two_failing : Viewer.World Recorder unit :=
  three_recorders (Some static_three)
    (recorder "alpha" (Some (errorString "boom-1")))
    (recorder "beta" (Some (errorString "boom-2")))
    (recorder "gamma" None).

Definition one_failing : Viewer.World Recorder unit :=
  three_recorders (Some static_three)
    (recorder "alpha" None)
    (recorder "beta" (Some (errorString "boom-2")))
    (recorder "gamma" None).

Definition call_summary (c : Viewer.call) : string * option error :=
  (Viewer.call_name c, Viewer.call_err c).




Example one_failing_run :
  exists (w' : Viewer.World Recorder unit) (err : error),
    Viewer.Update one_failing = Returned (w', Some err) /\
    call_summary <$> Viewer.calls w' =
      [("alpha", None); ("beta", Some (errorString "boom-2")); ("gamma", None)] /\
    Error err = "target beta: boom-2" /\
    (length ∘ rec_seen) <$> Viewer.heap w' =
      list_to_map [(0%nat, 1%nat); (1%nat, 1%nat); (2%nat, 1%nat)].
Proof. eexists _, _. split; [by vm_compute|]. by vm_compute. Qed.

Definition no_provider : Viewer.World Recorder unit :=
  three_recorders None (recorder "alpha" None) (recorder "beta" None) (recorder "gamma" None).

Definition provider_down : Viewer.World Recorder unit :=
  three_recorders (Some failing_provider)
    (recorder "alpha" None) (recorder "beta" None) (recorder "gamma" None).

Lemma Update_aborts_before_fanout_witness :
  (exists (w' : Viewer.World Recorder unit) (err : error),
    Viewer.Update no_provider = Returned (w', Some err) /\
    (Viewer.provider (Viewer.viewer no_provider) = None ->
       err = errorString "no state provider set") /\
    (forall p e, Viewer.provider (Viewer.viewer no_provider) = Some p ->
                 (GetViewState p (Viewer.env no_provider)).2.2 = Some e ->
                 err = Errorf_w "failed to get view state: " e) /\
    Viewer.calls w' = Viewer.calls no_provider /\
    Viewer.heap w' = Viewer.heap no_provider /\
    Viewer.targets (Viewer.viewer w') = Viewer.targets (Viewer.viewer no_provider) /\
    Viewer.viewer w' = Viewer.viewer no_provider /\
    Viewer.goroutines w' = Viewer.goroutines no_provider) /\
  (exists (w' : Viewer.World Recorder unit) (err : error),
    Viewer.Update provider_down = Returned (w', Some err) /\
    (Viewer.provider (Viewer.viewer provider_down) = None ->
       err = errorString "no state provider set") /\
    (forall p e, Viewer.provider (Viewer.viewer provider_down) = Some p ->
                 (GetViewState p (Viewer.env provider_down)).2.2 = Some e ->
                 err = Errorf_w "failed to get view state: " e) /\
    Viewer.calls w' = Viewer.calls provider_down /\
    Viewer.heap w' = Viewer.heap provider_down /\
    Viewer.targets (Viewer.viewer w') = Viewer.targets (Viewer.viewer provider_down) /\
    Viewer.viewer w' = Viewer.viewer provider_down /\
    Viewer.goroutines w' = Viewer.goroutines provider_down).
Proof.
  split.
  - apply (Update_aborts_before_fanout no_provider). left. reflexivity.
  - apply (Update_aborts_before_fanout provider_down). right.
    exists failing_provider, (errorString "upstream down"). split; reflexivity.
Defined.

(** The Web/JSON target behind a viewer: before the first refresh the
    endpoint serves the empty world, after it the projection of the
    snapshot. *)
Definition web_viewer : Viewer.World Web.WebTarget unit :=
  let w := Viewer.boot (Viewer.New [Viewer.WithInterval (5 * Viewer.Second)])
             {[ 0%nat := Web.NewWebTarget ":8080" [] ]} () in
  let w := Viewer.SetStateProvider (Some static_three) w in
  (Viewer.AddTarget 0%nat w).1.

Example web_viewer_refresh :
  exists w' : Viewer.World Web.WebTarget unit,
    Viewer.Update web_viewer = Returned (w', None) /\
    (Web.body ∘ Web.handleViewmodel) <$> Viewer.heap web_viewer !! 0%nat
      = Some [empty_world_document] /\
    (Web.body ∘ Web.handleViewmodel) <$> Viewer.heap w' !! 0%nat
      = Some (Web.Encode (ViewStateToJSON (Some three_lands))) /\
    Web.started <$> Viewer.heap w' !! 0%nat = Some true /\
    length (Web.Encode (ViewStateToJSON (Some three_lands))) = 1%nat.
Proof. eexists. split; [by vm_compute|]. by vm_compute. Qed.

(** ** Start, Stop and the background loop *)

Section LifecycleFacts.

Context {obj Env : Type} `{!Target obj}.

Import Viewer.

#[local] Abbreviation World := (Viewer.World obj Env).

(** The fan-out touches target objects and the call log, nothing else. *)
Lemma fanout_frame (ts : list loc) (state : option ViewState) :
  forall (w w' : World) (lastErr r : option error),
  fanout ts state w lastErr = Returned (w', r) ->
  viewer w' = viewer w /\ goroutines w' = goroutines w /\
  cancelled w' = cancelled w /\ next_ctx w' = next_ctx w.
Proof.
  induction ts as [|t ts IH]; intros w w' lastErr r Hrun; cbn [fanout] in Hrun.
  - by injection Hrun as <- _.
  - destruct (heap w !! t) as [o|]; [|done].
    destruct (Target_Update o state) as [o' [e|]];
      apply IH in Hrun as (-> & -> & -> & ->); done.
Qed.

Lemma Update_frame (w w' : World) (r : option error) :
  Update w = Returned (w', r) ->
  viewer w' = viewer w /\ goroutines w' = goroutines w /\
  cancelled w' = cancelled w /\ next_ctx w' = next_ctx w.
Proof.
  unfold Update. destruct (provider (viewer w)) as [p|]; [|by intros [= <- _]].
  destruct (GetViewState p (env w)) as [e [state [err|]]]; [by intros [= <- _]|].
  intros Hrun. by apply fanout_frame in Hrun.
Qed.

(** The world in which [Start] runs its first refresh. *)
Definition armed (ctx : Ctx) (w : World) : World :=
  with_viewer (WithCancel ctx w).2 (set_cancel (viewer w) (Some (next_ctx w))).

Lemma Start_eq (ctx : Ctx) (w : World) :
  Start ctx w =
  match cancel (viewer w) with
  | Some _ => Returned (w, Some AlreadyStarted)
  | None =>
      match Update (armed ctx w) with
      | Panicked => Panicked
      | Returned (w', Some err) => Returned (w', Some err)
      | Returned (w', None) =>
          Returned (with_goroutines w' (goroutines w' ++ [next_ctx w :: ctx]), None)
      end
  end.
Proof. reflexivity. Qed.

Lemma Start_guarded (ctx : Ctx) (w : World) :
  is_Some (cancel (viewer w)) -> Start ctx w = Returned (w, Some AlreadyStarted).
Proof. intros [id Hid]. unfold Start. by rewrite Hid. Qed.

Lemma Start_unguarded (ctx : Ctx) (w w1 : World) (r : option error) :
  cancel (viewer w) = None ->
  Start ctx w = Returned (w1, r) ->
  exists w', Update (armed ctx w) = Returned (w', r) /\
    match r with
    | Some _ => w1 = w'
    | None => w1 = with_goroutines w' (goroutines w' ++ [next_ctx w :: ctx])
    end.
Proof.
  intros Hnone. rewrite Start_eq, Hnone.
  destruct (Update (armed ctx w)) as [[w' [e|]]|]; [| |done].
  - intros [= <- <-]. by exists w'.
  - intros [= <- <-]. by exists w'.
Qed.

Lemma Start_marks_started (ctx : Ctx) (w w1 : World) (r : option error) :
  Start ctx w = Returned (w1, r) -> is_Some (cancel (viewer w1)).
Proof.
  destruct (cancel (viewer w)) as [id|] eqn:Hc.
  - rewrite Start_guarded by (by exists id). intros [= <- _]. by exists id.
  - intros Hs. destruct (Start_unguarded ctx w w1 r Hc Hs) as (w' & Hu & Hw1).
    apply Update_frame in Hu as (Hv & _).
    destruct r; subst w1; cbn; rewrite Hv; by eexists.
Qed.

(** What a run without [Stop] or [Close] keeps: the viewer stays marked as
    started, and there is at most one [run] goroutine, none unless the viewer
    is marked as started. *)
Definition single_flight (w : World) : Prop :=
  (length (goroutines w) <= 1)%nat /\
  (cancel (viewer w) = None -> goroutines w = []).

Lemma length_remove_goroutine (c : Ctx) (gs : list Ctx) :
  (length (remove_goroutine c gs) <= length gs)%nat.
Proof. induction gs as [|g gs IH]; cbn; [lia|]. case_bool_decide; cbn; lia. Qed.

Lemma Start_single_flight (ctx : Ctx) (w w1 : World) (r : option error) :
  single_flight w -> Start ctx w = Returned (w1, r) -> single_flight w1.
Proof.
  intros [Hlen Hnil] Hs. destruct (cancel (viewer w)) as [id|] eqn:Hc.
  - rewrite Start_guarded in Hs by (by exists id). injection Hs as <- _.
    split; [done|]. by rewrite Hc.
  - destruct (Start_unguarded ctx w w1 r Hc Hs) as (w' & Hu & Hw1).
    apply Update_frame in Hu as (Hv & Hg & _). cbn in Hg.
    rewrite (Hnil eq_refl) in Hg.
    destruct r; subst w1; split; cbn; rewrite ?Hg, ?Hv; cbn; (lia || done).
Qed.

Lemma exec_keeps (o : op Env) (w w' : World) (r : option error) :
  exec o w = Returned (w', r) ->
  (is_Some (cancel (viewer w)) -> is_Some (cancel (viewer w'))) /\
  (single_flight w -> single_flight w').
Proof.
  destruct o as [p|t|t| |ctx]; cbn [exec].
  - by intros [= <- _].
  - by intros [= <- _].
  - by intros [= <- _].
  - intros Hu. apply Update_frame in Hu as (Hv & Hg & _).
    unfold single_flight. by rewrite Hv, Hg.
  - intros Hs. split.
    + intros _. by eapply Start_marks_started.
    + intros Hsf. by eapply Start_single_flight.
Qed.

Lemma bg_step_keeps (w w' : World) :
  bg_step w w' ->
  (is_Some (cancel (viewer w)) -> is_Some (cancel (viewer w'))) /\
  (single_flight w -> single_flight w').
Proof.
  intros [c w0 w0' r _ Hu | c w0 Hin _ _ | id w0].
  - apply Update_frame in Hu as (Hv & Hg & _).
    unfold single_flight. by rewrite Hv, Hg.
  - split; [done|]. intros [Hlen Hnil]. split; cbn.
    + pose proof (length_remove_goroutine c (goroutines w0)). lia.
    + intros Hc. rewrite (Hnil Hc) in Hin. by apply elem_of_nil in Hin.
  - done.
Qed.

Lemma quiet_steps_keep (w w' : World) :
  rtc quiet_step w w' ->
  (is_Some (cancel (viewer w)) -> is_Some (cancel (viewer w'))) /\
  (single_flight w -> single_flight w').
Proof.
  induction 1 as [w|w w1 w2 Hstep _ [IH1 IH2]]; [done|].
  assert ((is_Some (cancel (viewer w)) -> is_Some (cancel (viewer w1))) /\
          (single_flight w -> single_flight w1)) as [H1 H2].
  { destruct Hstep as [o w0 w0' r Hex | w0 w0' Hbg];
      [by eapply exec_keeps | by apply bg_step_keeps]. }
  split; auto.
Qed.


(** With no [run] goroutine alive and [done] open, nothing in the
    background ever closes [done]. *)
Lemma bg_steps_never_close (w w' : World) :
  rtc bg_step w w' ->
  goroutines w = [] -> done_closed (viewer w) = false ->
  goroutines w' = [] /\ done_closed (viewer w') = false.
Proof.
  induction 1 as [w|w w1 w2 Hstep _ IH]; [done|]. intros Hnil Hopen.
  apply IH; destruct Hstep as [c w0 w0' r Hin Hu | c w0 Hin _ _ | id w0]; try done.
  - rewrite Hnil in Hin. by apply elem_of_nil in Hin.
  - rewrite Hnil in Hin. by apply elem_of_nil in Hin.
  - rewrite Hnil in Hin. by apply elem_of_nil in Hin.
  - rewrite Hnil in Hin. by apply elem_of_nil in Hin.
Qed.

Lemma Stop_signal_frame (w : World) :
  goroutines (Stop_signal w) = goroutines w /\
  done_closed (viewer (Stop_signal w)) = done_closed (viewer w) /\
  cancel (viewer (Stop_signal w)) = None.
Proof. unfold Stop_signal. destruct (cancel (viewer w)) eqn:Hc; done. Qed.

(** C10, as the code has it. On a viewer on which no loop has run yet
    ([done] open, no [run] goroutine), when [Start] gets past its guard and
    its first refresh fails, [Start] returns that error and launches no
    loop, yet leaves the viewer marked as started: every later [Start] fails
    with "viewer already started", and a later [Stop] clears the mark and
    then waits for a [done] that no background step ever closes. *)
Theorem Start_failed_refresh (w w1 : World) (ctx : Ctx) (err : error) :
  cancel (viewer w) = None ->
  Start ctx w = Returned (w1, Some err) ->
  goroutines w = [] ->
  done_closed (viewer w) = false ->
  Update (armed ctx w) = Returned (w1, Some err) /\
  goroutines w1 = [] /\
  is_Some (cancel (viewer w1)) /\
  (forall ctx', Start ctx' w1 = Returned (w1, Some AlreadyStarted)) /\
  cancel (viewer (Stop_signal w1)) = None /\
  Stop_blocks_forever w1.
Proof.
  intros Hc Hs Hnil Hopen.
  destruct (Start_unguarded ctx w w1 (Some err) Hc Hs) as (w' & Hu & <-).
  pose proof (Update_frame _ _ _ Hu) as (Hv & Hg & _). cbn in Hg, Hv.
  assert (Hmark : is_Some (cancel (viewer w1))) by (by eapply Start_marks_started).
  destruct (Stop_signal_frame w1) as (Hsg & Hsd & Hsc).
  split; [done|]. split; [by rewrite Hg|]. split; [done|].
  split; [intros ctx'; by apply Start_guarded|]. split; [done|].
  intros w2 Hrun. apply (bg_steps_never_close _ _ Hrun).
  - by rewrite Hsg, Hg.
  - by rewrite Hsd, Hv.
Qed.

End LifecycleFacts.

(** *** Concrete runs *)

Definition world_of {obj Env : Type} (o : outcome (Viewer.World obj Env * option error))
    (otherwise : Viewer.World obj Env) : Viewer.World obj Env :=
  match o with
  | Returned (w, _) => w
  | Panicked => otherwise
  end.

Definition ready : Viewer.World Recorder unit :=
  three_recorders (Some static_three)
    (recorder "alpha" None) (recorder "beta" None) (recorder "gamma" None).

(** [Start] succeeded: the loop is running. *)
Definition running : Viewer.World Recorder unit :=
  world_of (Viewer.Start Viewer.Background ready) ready.

Definition refreshed : Viewer.World Recorder unit :=
  world_of (Viewer.Update running) running.


Example running_one_loop :
  Viewer.goroutines running = [[0%nat]] /\
  Viewer.cancel (Viewer.viewer running) = Some 0%nat /\
  (length ∘ rec_seen) <$> Viewer.heap running =
    list_to_map [(0%nat, 1%nat); (1%nat, 1%nat); (2%nat, 1%nat)].
Proof. by vm_compute. Qed.

Definition fetch_failed : error :=
  Errorf_w "failed to get view state: " (errorString "upstream down").

(** [Start] on a fresh viewer whose provider is down. *)
Definition stuck : Viewer.World Recorder unit :=
  world_of (Viewer.Start Viewer.Background provider_down) provider_down.

Lemma Start_failed_refresh_witness :
  Viewer.Update (armed Viewer.Background provider_down) = Returned (stuck, Some fetch_failed) /\
  Viewer.goroutines stuck = [] /\
  is_Some (Viewer.cancel (Viewer.viewer stuck)) /\
  (forall ctx', Viewer.Start ctx' stuck = Returned (stuck, Some Viewer.AlreadyStarted)) /\
  Viewer.cancel (Viewer.viewer (Viewer.Stop_signal stuck)) = None /\
  Viewer.Stop_blocks_forever stuck.
Proof.
  apply (Start_failed_refresh provider_down stuck Viewer.Background fetch_failed).
  - reflexivity.
  - by vm_compute.
  - reflexivity.
  - reflexivity.
Defined.

(** A first cycle on the same viewer: [Stop] cancels the loop's context, the
    loop returns and closes [done]. *)
Definition stopping : Viewer.World Recorder unit := Viewer.Stop_signal running.

Definition stopped : Viewer.World Recorder unit := Viewer.run_exit [0%nat] stopping.

(** Then the provider goes down and the viewer is started again. *)
Definition reconfigured : Viewer.World Recorder unit :=
  Viewer.SetStateProvider (Some failing_provider) stopped.

Definition restuck : Viewer.World Recorder unit :=
  world_of (Viewer.Start Viewer.Background reconfigured) reconfigured.

(** C10 as specified, for every viewer, fails on a viewer that
    has been through a Start/Stop cycle: [done] is closed for good, so after
    a [Start] whose refresh fails, [Stop] returns at once. *)
Lemma Stop_returns_after_an_earlier_run :
  Viewer.Stop_returns running stopped /\
  Viewer.cancel (Viewer.viewer reconfigured) = None /\
  Viewer.Start Viewer.Background reconfigured = Returned (restuck, Some fetch_failed) /\
  Viewer.goroutines restuck = [] /\
  Viewer.Stop_returns restuck (Viewer.Stop_signal restuck) /\
  ~ Viewer.Stop_blocks_forever restuck.
Proof.
  split; [|split; [|split; [|split; [|split]]]].
  - split; [|by vm_compute]. apply rtc_once.
    apply (Viewer.bg_exit [0%nat] stopping).
    + apply (bool_decide_unpack _). by vm_compute.
    + by vm_compute.
    + by vm_compute.
  - by vm_compute.
  - by vm_compute.
  - by vm_compute.
  - split; [apply rtc_refl|by vm_compute].
  - intros Hblocks. specialize (Hblocks (Viewer.Stop_signal restuck) (rtc_refl _ _)).
    by vm_compute in Hblocks.
Qed.

(** ** Change suppression in the image target *)

Lemma bytes_Equal_spec (a b : list Byte.byte) : bytes_Equal a b = true <-> a = b.
Proof.
  revert b. induction a as [|x a IH]; intros [|y b]; cbn; try done.
  rewrite andb_true_iff, IH. split.
  - intros [Hxy ->]. f_equal. by apply Byte.byte_dec_bl.
  - intros [= -> ->]. split; [|done]. by apply Byte.byte_dec_lb.
Qed.

Lemma bytes_Equal_refl (a : list Byte.byte) : bytes_Equal a a = true.
Proof. by apply bytes_Equal_spec. Qed.

Lemma last_cons_default {A : Type} (l : list A) (a d d' : A) :
  List.last (a :: l) d = List.last (a :: l) d'.
Proof.
  revert a. induction l as [|x l IH]; intros a; [done|].
  change (List.last (x :: l) d = List.last (x :: l) d'). apply IH.
Qed.

(** The elements of [bs] that differ from their predecessor, [prev] being
    the predecessor of the first. *)
Fixpoint changes (prev : bytes) (bs : list bytes) : list bytes :=
  match bs with
  | [] => []
  | b :: rest =>
      if bytes_Equal b prev then changes prev rest else b :: changes b rest
  end.

Section SmartTVFacts.

Context {X Image : Type} (E : TV.Externals X Image).

Import TV.

#[local] Abbreviation World := (TV.World X).

Lemma call_trace {A : Type} (c : M X A) (w : World) :
  trace (call c w).2 = trace w.
Proof. unfold call. by destruct (c (ext w)). Qed.

Lemma convertToJFIF_trace (img : Image) (w : World) :
  trace (convertToJFIF E img w).2 = trace w.
Proof.
  unfold convertToJFIF, mbind, M_bind, mret, M_ret.
  repeat match goal with
  | |- context [call ?c ?w] =>
      let H := fresh in
      pose proof (call_trace c w) as H;
      destruct (call c w) as [? ?]; cbn [snd] in H
  | |- context [match ?o with Some _ => _ | None => _ end] => destruct o
  end; cbn [snd]; congruence.
Qed.

(** One [Update]: it fails before encoding and leaves the trace alone; or it
    encodes the bytes it holds already and stops there; or it encodes other
    bytes, keeps them, and pushes them once. *)
Lemma Update_step (t : SmartTVTarget) (state : option ViewState) (w : World) :
  let '((t', r), w') := Update E t state w in
  (trace w' = trace w /\ t' = t /\ is_Some r) \/
  (exists b, trace w' = trace w ++ [Encoded b] /\
             b = lastImageBytes t /\ t' = t /\ r = None) \/
  (exists b res, trace w' = trace w ++ [Encoded b; Pushed b res] /\
                 b ≠ lastImageBytes t /\ t' = set_lastImageBytes t b /\
                 (r = None <-> res = None)).
Proof.
  unfold Update, mbind, M_bind, mret, M_ret.
  pose proof (call_trace (sprites_Render E (NewSpritesStateAdapter state)) w) as Hr.
  destruct (call (sprites_Render E (NewSpritesStateAdapter state)) w) as [[frame|] w1];
    cbn [snd] in Hr; [|left; by eauto].
  assert (exists jpegData err w2,
            (if useJFIF t then convertToJFIF E frame else encodeJPEG E frame) w1
              = ((jpegData, err), w2) /\ trace w2 = trace w) as (b & err & w2 & -> & Hc).
  { destruct (useJFIF t).
    - pose proof (convertToJFIF_trace frame w1) as Hc.
      destruct (convertToJFIF E frame w1) as [[b err] w2]. cbn [snd] in Hc.
      exists b, err, w2. split; [done|congruence].
    - unfold encodeJPEG, mret, M_ret. destruct (jpeg_Encode E frame) as [b err].
      by exists b, err, w1. }
  destruct err as [err|]; [left; by eauto|].
  unfold emit. cbn [ext trace].
  destruct (bytes_Equal b (lastImageBytes t)) eqn:Heq.
  - right; left. exists b. apply bytes_Equal_spec in Heq. by rewrite Hc.
  - match goal with
    | |- context [call ?c ?w0] =>
        pose proof (call_trace c w0) as Hd; destruct (call c w0) as [res w4]
    end.
    cbn [snd trace] in Hd. cbn [ext trace].
    assert (Hne : b ≠ lastImageBytes t).
    { intros ->. by rewrite (proj2 (bytes_Equal_spec _ _) eq_refl) in Heq. }
    destruct res as [e|]; right; right.
    + exists b, (Some e). rewrite Hd, Hc, <- app_assoc. done.
    + exists b, None. rewrite Hd, Hc, <- app_assoc. done.
Qed.


End SmartTVFacts.

(** *** A display that refuses one picture *)

(** The renderer draws one byte per land; the encoder is the identity; the
    display refuses pictures of two bytes and counts the requests it gets. *)
Definition frame_of (a : SpritesStateAdapter) : option bytes :=
  (fun vs => repeat Byte.x01 (length (Lands vs))) <$> viewState a.

Definition refused : error := errorString "connection refused".

Definition flaky_display : TV.Externals nat bytes :=
  {| TV.sprites_Render := fun a => mret (frame_of a);
     TV.time_Now_UnixNano := mret 0;
     TV.run_ffmpeg_still := fun _ _ => mret None;
     TV.run_magick := fun _ _ => mret None;
     TV.os_ReadFile := fun _ => mret ([], None);
     TV.os_Remove := fun _ => mret ();
     TV.jpeg_Encode := fun img => (img, None);
     TV.DisplayImageJPEG := fun _ b n =>
       (if (length b =? 2)%nat then Some refused else None, S n) |}.

Definition lands_state (n : nat) : option ViewState :=
  Some {| Lands := repeat (land0 "land" 0 0) n; Summary := summary0 0 0 |}.

Definition picture_A : bytes := [Byte.x01].
Definition picture_B : bytes := [Byte.x01; Byte.x01].

Definition jvc : TV.SmartTVTarget :=
  TV.NewSmartTVTarget (Some {| TV_Name := "JVC" |}) [TV.WithJFIF false].

Definition tv_off : TV.World nat := {| TV.ext := 0%nat; TV.trace := [] |}.

(** Picture A is pushed, then picture B is refused. *)
Definition after_A_B : (TV.SmartTVTarget * list (option error)) * TV.World nat :=
  TV.run flaky_display [lands_state 1; lands_state 2] jvc tv_off.

(** Then the state is back to what gave picture A. *)
Definition back_to_A : (TV.SmartTVTarget * option error) * TV.World nat :=
  TV.Update flaky_display after_A_B.1.1 (lands_state 1) after_A_B.2.


(** The other side of the same comparison: a refused picture that is
    rendered again is not pushed again. *)
Example refused_push_not_retried :
  TV.trace (TV.Update flaky_display after_A_B.1.1 (lands_state 2) after_A_B.2).2 =
    TV.trace after_A_B.2 ++ [TV.Encoded picture_B].
Proof. by vm_compute. Qed.

Example run_pushes_changes_example :
  let '((t', rs), w') :=
    TV.run flaky_display [lands_state 1; lands_state 1; lands_state 3; lands_state 3;
                          lands_state 1] jvc tv_off in
  TV.pushed_of (TV.trace w') = [picture_A; repeat Byte.x01 3; picture_A] /\
  TV.ext w' = 3%nat /\ rs = [None; None; None; None; None].
Proof. by vm_compute. Qed.

(** ** Cancelling the video pipeline *)

Section VideoFacts.

Context (B : Video.Behaviour).

Import Video.

(** No step of the frame loop removes a file, and its cancellation branch
    reaps the encoder. *)
Lemma render_frames_spec (adapter : SpritesStateAdapter) (n : nat) :
  forall (i : nat) (w : World),
  let '(out, w') := render_frames B adapter n i w in
  dom (files w) ⊆ dom (files w') /\
  (out = ReturnedCanceled -> encoder w' = None).
Proof.
  induction n as [|n IH]; intros i w; cbn [render_frames].
  - done.
  - destruct (ctx_Done B i).
    + unfold mbind, M_bind, mret, M_ret, ffmpegIn_Close, ffmpeg_Wait.
      destruct (encoder w); done.
    + unfold mbind, M_bind, sprites_Render.
      set (w1 := {| clock := clock w; files := files w; encoder := encoder w;
                    listening := listening w; renders := S (renders w) |}).
      destruct (render_frame B (renders w)) as [pix|]; [|apply (IH (S i) w1)].
      unfold ffmpegIn_Write.
      destruct (encoder w1) as [p|] eqn:Hp; [|done].
      destruct (stdin_open p); [|done].
      destruct (ffmpeg_takes B (taken p)); [done|].
      match goal with |- context [render_frames B adapter n (S i) ?w2] =>
        specialize (IH (S i) w2); destruct (render_frames B adapter n (S i) w2) as [out w'];
        cbn [files] in IH
      end.
      destruct IH as [Hsub Hc]. split; [|done].
      etrans; [|exact Hsub]. rewrite dom_insert. set_solver.
Qed.

(** Whatever way [generateVideo] takes, no encoder process is left behind
    and no file that was on disk is gone. *)
Lemma generateVideo_spec (t : VideoTarget) (st : option ViewState) (w : World) :
  encoder w = None ->
  let '(_, w') := generateVideo B t st w in
  encoder w' = None /\ dom (files w) ⊆ dom (files w').
Proof.
  intros Hnone. unfold generateVideo, mbind, M_bind, mret, M_ret.
  unfold time_Now_UnixNano, ffmpeg_Start. cbn [clock].
  destruct (ffmpeg_found B); [done|].
  match goal with |- context [render_frames B ?a ?n 0%nat ?w1] =>
    pose proof (render_frames_spec a n 0%nat w1) as Hloop;
    destruct (render_frames B a n 0%nat w1) as [out w2]
  end.
  cbn [files with_encoder] in Hloop. destruct Hloop as [Hsub Hc].
  destruct out.
  - split; [by apply Hc|done].
  - unfold ffmpegIn_Close, ffmpeg_Wait.
    destruct (encoder w2); destruct (ffmpeg_exit B); done.
Qed.

End VideoFacts.

(** *** A run cancelled after three frames *)

Definition frame_pixels : bytes := [Byte.x00; Byte.x00; Byte.x00; Byte.xff].

(** Ten frames are due (one second at ten frames per second); the renderer
    and the encoder are healthy; the context is cancelled while the fourth
    frame is due. *)
Definition cancelled_mid_stream : Video.Behaviour :=
  {| Video.ffmpeg_found := None;
     Video.ffmpeg_encode := fun pix => pix;
     Video.ffmpeg_takes := fun _ => None;
     Video.ffmpeg_exit := None;
     Video.render_frame := fun _ => Some frame_pixels;
     Video.cancel_at := Some 3%nat;
     Video.stream_result := None;
     Video.tick := 1 |}.

Definition one_second_video : Video.VideoTarget :=
  (Video.Update
     (Video.NewVideoTarget (Some {| TV_Name := "JVC" |}) "192.168.1.10"
        [Video.WithVideoFPS 10; Video.WithVideoDuration Video.Second])
     (Some three_lands)).1.

Definition clean_machine : Video.World :=
  {| Video.clock := 1700000000000000000; Video.files := ∅; Video.encoder := None;
     Video.listening := None; Video.renders := 0%nat |}.

Definition partial_file : string := "/tmp/nimsforest_viewer_1700000000000000000.mp4".

(** C8 at its failing input. [generateVideo] returns the context's error
    and the encoder is reaped, but the three frames the encoder wrote are
    still on disk; [Start] does not record the file's name, so the
    [Close] that follows does not remove it either. *)
Theorem generateVideo_cancelled_leaves_partial_file :
  let '((file, err), w) :=
    Video.generateVideo cancelled_mid_stream one_second_video
      (Video.state one_second_video) clean_machine in
  let '((t1, err1), w1) := Video.Start cancelled_mid_stream one_second_video clean_machine in
  let '(_, w2) := Video.Close t1 w1 in
  file = "" /\ err = Some Video.Canceled /\
  Video.encoder w = None /\
  Video.files w !! partial_file = Some (frame_pixels ++ frame_pixels ++ frame_pixels) /\
  err1 = Some (Errorf_w "generate video: " Video.Canceled) /\
  Video.videoFile t1 = "" /\
  Video.files w2 !! partial_file = Some (frame_pixels ++ frame_pixels ++ frame_pixels).
Proof. by vm_compute. Qed.

(** The same run without the cancellation: the file is complete, [Start]
    records it, and [Close] removes it. *)
Example generateVideo_completed_then_closed :
  let healthy :=
    {| Video.ffmpeg_found := None; Video.ffmpeg_encode := fun pix => pix;
       Video.ffmpeg_takes := fun _ => None; Video.ffmpeg_exit := None;
       Video.render_frame := fun _ => Some frame_pixels; Video.cancel_at := None;
       Video.stream_result := None; Video.tick := 1 |} in
  let '((t1, err1), w1) := Video.Start healthy one_second_video clean_machine in
  let '(_, w2) := Video.Close t1 w1 in
  err1 = None /\ Video.videoFile t1 = partial_file /\
  length <$> Video.files w1 !! partial_file = Some 40%nat /\
  Video.encoder w1 = None /\
  Video.files w2 !! partial_file = None.
Proof. by vm_compute. Qed.

(** * Further properties of the code *)

(** ** The target set *)

Section TargetSetFacts.

Context {obj Env : Type} `{!Target obj}.

Import Viewer.

#[local] Abbreviation World := (Viewer.World obj Env).

Lemma remove_first_absent (t : loc) (ts : list loc) :
  t ∉ ts -> remove_first t ts = ts.
Proof.
  induction ts as [|x ts IH]; intros Hnotin; [done|].
  apply not_elem_of_cons in Hnotin as [Hne Hnotin]. cbn.
  destruct (Nat.eqb_spec x t) as [->|_]; [done|]. by rewrite IH.
Qed.

Lemma remove_first_split (t : loc) (pre post : list loc) :
  t ∉ pre -> remove_first t (pre ++ t :: post) = pre ++ post.
Proof.
  induction pre as [|x pre IH]; intros Hnotin; cbn.
  - by rewrite Nat.eqb_refl.
  - apply not_elem_of_cons in Hnotin as [Hne Hnotin].
    destruct (Nat.eqb_spec x t) as [->|_]; [done|]. by rewrite IH.
Qed.

Lemma with_viewer_same (w : World) : with_viewer w (viewer w) = w.
Proof. by destruct w. Qed.

Lemma set_targets_same (v : Viewer.Viewer Env) : set_targets v (targets v) = v.
Proof. by destruct v. Qed.

(** X1. [RemoveTarget] cuts the first occurrence of the reference out of the
    slice and keeps the rest in order; on a reference that is not in the
    slice it changes nothing at all. Target objects, provider and lifecycle
    state are never touched. *)
Theorem RemoveTarget_first_occurrence (t : loc) (w : World) :
  (t ∉ targets (viewer w) -> RemoveTarget t w = w) /\
  (forall pre post, targets (viewer w) = pre ++ t :: post -> t ∉ pre ->
     targets (viewer (RemoveTarget t w)) = pre ++ post) /\
  heap (RemoveTarget t w) = heap w /\
  provider (viewer (RemoveTarget t w)) = provider (viewer w) /\
  cancel (viewer (RemoveTarget t w)) = cancel (viewer w) /\
  goroutines (RemoveTarget t w) = goroutines w.
Proof.
  split; [|split; [|done]].
  - intros Hnotin. unfold RemoveTarget.
    by rewrite remove_first_absent, set_targets_same, with_viewer_same.
  - intros pre post Hts Hpre. cbn. rewrite Hts. by apply remove_first_split.
Qed.

(** X2. A target added and removed again before any refresh leaves the viewer
    exactly as it was, so no refresh ever calls it; if the same reference
    was in the slice already, it is the older entry that goes. *)
Theorem AddTarget_RemoveTarget (t : loc) (w : World) :
  (t ∉ targets (viewer w) ->
     RemoveTarget t (AddTarget t w).1 = w /\
     Update (RemoveTarget t (AddTarget t w).1) = Update w) /\
  (forall pre post, targets (viewer w) = pre ++ t :: post -> t ∉ pre ->
     targets (viewer (RemoveTarget t (AddTarget t w).1)) = pre ++ post ++ [t]).
Proof.
  split.
  - intros Hnotin.
    assert (Heq : RemoveTarget t (AddTarget t w).1 = w).
    { unfold RemoveTarget, AddTarget. cbn.
      replace (remove_first t (targets (viewer w) ++ [t])) with (targets (viewer w)).
      - destruct w as [v ? ? ? ? ? ?]. by destruct v.
      - rewrite <- (app_nil_r (targets (viewer w))) at 1.
        by rewrite (remove_first_split t (targets (viewer w)) []). }
    by rewrite Heq.
  - intros pre post Hts Hpre. cbn. rewrite Hts, <- app_assoc. cbn.
    by rewrite (remove_first_split t pre (post ++ [t])).
Qed.

End TargetSetFacts.

(** ** What a refresh does to the target objects *)

Section RefreshFacts.

Context {obj Env : Type} `{!Target obj}.

Import Viewer.

#[local] Abbreviation World := (Viewer.World obj Env).

(** How often the reference [t] stands in the slice. *)
Definition occurrences (t : loc) (ts : list loc) : nat :=
  length (filter (fun x => x = t) ts).

Definition refreshed_with (state : option ViewState) (o : obj) : obj :=
  (Target_Update o state).1.

Lemma fanout_heap (ts : list loc) (state : option ViewState) :
  forall (w w' : World) (lastErr r : option error),
  fanout ts state w lastErr = Returned (w', r) ->
  forall t, heap w' !! t =
            Nat.iter (occurrences t ts) (refreshed_with state) <$> heap w !! t.
Proof.
  induction ts as [|x ts IH]; intros w w' lastErr r Hrun t; cbn [fanout] in Hrun.
  - injection Hrun as <- _. cbn. by destruct (heap w !! t).
  - destruct (heap w !! x) as [o|] eqn:Hx; [|done].
    destruct (Target_Update o state) as [o' err] eqn:Hupd.
    assert (Ho' : o' = refreshed_with state o) by (unfold refreshed_with; by rewrite Hupd).
    assert (Hrest : heap w' !! t =
      Nat.iter (occurrences t ts) (refreshed_with state) <$> <[x:=o']> (heap w) !! t).
    { destruct err; by eapply IH in Hrun. }
    rewrite Hrest. unfold occurrences. rewrite filter_cons.
    destruct (decide (x = t)) as [->|Hne].
    + rewrite lookup_insert_eq, Hx. cbn. f_equal. rewrite Ho'.
      by rewrite <- Nat.iter_succ_r.
    + by rewrite lookup_insert_ne.
Qed.

(** X3. When the provider delivers a snapshot and [Update] returns, every
    target object has been refreshed with that very snapshot once for each
    time its reference stands in the slice (so an object added twice is
    refreshed twice), whether or not other targets failed, and every other
    object is as before. *)
Theorem Update_refreshes_each_target (w w' : World) (p : StateProvider Env)
    (ret : option error) :
  provider (viewer w) = Some p ->
  (GetViewState p (env w)).2.2 = None ->
  Update w = Returned (w', ret) ->
  env w' = (GetViewState p (env w)).1 /\
  forall t : loc,
    heap w' !! t =
      Nat.iter (occurrences t (targets (viewer w)))
               (refreshed_with (GetViewState p (env w)).2.1) <$> heap w !! t.
Proof.
  intros Hp Hfetch. unfold Update. rewrite Hp.
  destruct (GetViewState p (env w)) as [e [state err]]. cbn in Hfetch. subst err.
  intros Hrun. split.
  - destruct (fanout_spec (targets (viewer w)) state (with_env w e) None)
      as (w1 & cs & Hrun1 & _ & _ & _ & He & _).
    + (* a returning fan-out has met no nil target *)
      clear -Hrun. revert Hrun. generalize (with_env w e) (@None error).
      induction (targets (viewer w)) as [|x ts IH]; intros w0 l Hrun; [constructor|].
      cbn [fanout] in Hrun. destruct (heap w0 !! x) as [o|] eqn:Hx; [|done].
      constructor; [by exists o|].
      destruct (Target_Update o state) as [o' err].
      assert (Hlive : Forall (fun t => is_Some
                (heap (with_target w0 x o'
                   [{| call_target := x; call_name := Target_Name o'; call_err := err |}])
                 !! t)) ts) by (destruct err; by eapply IH).
      eapply Forall_impl; [exact Hlive|]. intros t [o1 Ho1]. cbn in Ho1.
      destruct (decide (x = t)) as [<-|Hne]; [by exists o|].
      rewrite lookup_insert_ne in Ho1 by done. by exists o1.
    + rewrite Hrun in Hrun1. injection Hrun1 as <- _. by rewrite He.
  - intros t. by rewrite (fanout_heap _ _ _ _ _ _ Hrun t).
Qed.

(** A fan-out panics exactly when it meets a reference with no object. *)
Lemma fanout_panics (ts : list loc) (state : option ViewState) :
  forall (w : World) (lastErr : option error),
  ~ live w ts -> fanout ts state w lastErr = Panicked.
Proof.
  induction ts as [|x ts IH]; intros w lastErr Hnot.
  - exfalso. apply Hnot. constructor.
  - cbn [fanout]. destruct (heap w !! x) as [o|] eqn:Hx; [|done].
    destruct (Target_Update o state) as [o' err].
    assert (Hrest : ~ live (with_target w x o'
              [{| call_target := x; call_name := Target_Name o'; call_err := err |}]) ts).
    { intros Hlive. apply Hnot. constructor; [by exists o|].
      eapply Forall_impl; [exact Hlive|]. intros t [o1 Ho1]. cbn in Ho1.
      destruct (decide (x = t)) as [<-|Hne]; [by exists o|].
      rewrite lookup_insert_ne in Ho1 by done. by exists o1. }
    destruct err; by apply IH.
Qed.


End RefreshFacts.

(** ** Close, and Stop after a successful Start *)

Section CloseFacts.

Context {obj Env : Type} `{!Target obj}.

Import Viewer.

#[local] Abbreviation World := (Viewer.World obj Env).

(** What [Close] returns of the targets' [Close] results, in slice order:
    the last error, as it is. *)
Definition last_some {A : Type} (l : list (option A)) (init : option A) : option A :=
  fold_left (fun acc x => match x with Some a => Some a | None => acc end) l init.

Definition close_result (w : World) (t : loc) : option error :=
  heap w !! t ≫= fun o => (Target_Close o).2.

Definition closed (o : obj) : obj := (Target_Close o).1.

Lemma closeAll_spec (ts : list loc) :
  forall (w : World) (lastErr : option error),
  NoDup ts -> live w ts ->
  exists w' : World,
    closeAll ts w lastErr = Returned (w', last_some (close_result w <$> ts) lastErr) /\
    (forall t, heap w' !! t =
               if decide (t ∈ ts) then closed <$> heap w !! t else heap w !! t) /\
    viewer w' = viewer w /\ goroutines w' = goroutines w /\
    cancelled w' = cancelled w /\ calls w' = calls w /\ env w' = env w.
Proof.
  induction ts as [|x ts IH]; intros w lastErr Hnd Hlive.
  - exists w. split; [done|]. split; [|done]. intros t. by rewrite decide_False by apply not_elem_of_nil.
  - apply NoDup_cons in Hnd as [Hx Hnd]. apply Forall_cons in Hlive as [[o Ho] Hlive].
    cbn [closeAll]. rewrite Ho.
    destruct (Target_Close o) as [o' err] eqn:Hclose.
    set (w1 := with_target w x o' []).
    assert (Hother : forall t, t ≠ x -> heap w1 !! t = heap w !! t).
    { intros t Hne. cbn. by rewrite lookup_insert_ne. }
    assert (Hlive1 : live w1 ts).
    { apply Forall_forall. intros t Ht. rewrite Hother by (intros ->; done).
      by apply (proj1 (Forall_forall _ _) Hlive). }
    assert (Hres : close_result w1 <$> ts = close_result w <$> ts).
    { apply list_fmap_ext. intros i t Ht. unfold close_result.
      rewrite Hother; [done|]. intros ->. apply Hx. by eapply list_elem_of_lookup_2. }
    set (acc := match err with Some e => Some e | None => lastErr end).
    destruct (IH w1 acc Hnd Hlive1) as (w' & Hrun & Hheap & Hv & Hg & Hc & Hcalls & He).
    exists w'. split.
    { rewrite fmap_cons. unfold last_some. cbn [fold_left].
      unfold close_result at 2. rewrite Ho. cbn. rewrite Hclose. cbn [snd].
      rewrite <- Hres. destruct err; exact Hrun. }
    split.
    { intros t. rewrite Hheap. destruct (decide (t = x)) as [->|Hne].
      - rewrite decide_False by done. rewrite decide_True by (apply elem_of_cons; by left).
        cbn. rewrite lookup_insert_eq, Ho. cbn. unfold closed. by rewrite Hclose.
      - rewrite Hother by done.
        destruct (decide (t ∈ ts)) as [Hin|Hnotin].
        + by rewrite decide_True by (apply elem_of_cons; by right).
        + rewrite decide_False; [done|]. intros [?|?]%elem_of_cons; done. }
    rewrite Hv, Hg, Hc, Hcalls, He. cbn. by rewrite app_nil_r.
Qed.

(** X5. [Close] on a viewer with distinct, present targets: it cancels the
    loop's context and clears the started mark, empties the target slice,
    and calls [Close] on every target in slice order whether or not earlier
    ones failed. It returns the last failing target's error unwrapped (no
    target name is added, unlike [Update]). It does not wait for the loop:
    the [run] goroutines and [done] are as before. *)
Theorem Close_closes_every_target (w : World) :
  NoDup (targets (viewer w)) ->
  live w (targets (viewer w)) ->
  exists w' : World,
    Close w = Returned (w', last_some (close_result w <$> targets (viewer w)) None) /\
    targets (viewer w') = [] /\
    cancel (viewer w') = None /\
    (forall id, cancel (viewer w) = Some id -> id ∈ cancelled w') /\
    (forall t, heap w' !! t =
               if decide (t ∈ targets (viewer w)) then closed <$> heap w !! t
               else heap w !! t) /\
    goroutines w' = goroutines w /\
    done_closed (viewer w') = done_closed (viewer w) /\
    provider (viewer w') = provider (viewer w).
Proof.
  intros Hnd Hlive. unfold Close.
  set (w0 := Stop_signal w).
  assert (H0 : targets (viewer w0) = targets (viewer w) /\ heap w0 = heap w /\
               goroutines w0 = goroutines w /\ cancel (viewer w0) = None /\
               done_closed (viewer w0) = done_closed (viewer w) /\
               provider (viewer w0) = provider (viewer w) /\
               (forall id, cancel (viewer w) = Some id -> id ∈ cancelled w0)).
  { unfold w0, Stop_signal. destruct (cancel (viewer w)) as [id|] eqn:Hc; cbn.
    - repeat (split; [done|]). intros id' [= <-]. apply elem_of_union_l.
      by apply elem_of_singleton.
    - by rewrite Hc. }
  destruct H0 as (Hts & Hheap & Hg & Hc & Hd & Hp & Hcan).
  set (w1 := with_viewer w0 (set_targets (viewer w0) [])).
  assert (Hlive1 : live w1 (targets (viewer w0))).
  { rewrite Hts. unfold live, w1. cbn. by rewrite Hheap. }
  assert (Hnd1 : NoDup (targets (viewer w0))) by (by rewrite Hts).
  destruct (closeAll_spec (targets (viewer w0)) w1 None Hnd1 Hlive1)
    as (w' & Hrun & Hh & Hv & Hg' & Hc' & _).
  exists w'. rewrite Hrun, Hv, Hg', Hc'.
  assert (Hres : close_result w1 <$> targets (viewer w0)
                 = close_result w <$> targets (viewer w)).
  { rewrite Hts. apply list_fmap_ext. intros i t _. unfold close_result, w1. cbn.
    by rewrite Hheap. }
  rewrite Hres. split; [done|]. split; [done|]. split; [done|]. split; [done|].
  split; [|done].
  intros t. rewrite Hh, Hts. unfold w1. cbn. by rewrite Hheap.
Qed.

End CloseFacts.

Section StopFacts.

Context {obj Env : Type} `{!Target obj}.

Import Viewer.

#[local] Abbreviation World := (Viewer.World obj Env).

(** While a [Stop] is pending on the one loop of the viewer: the loop is
    still there and [done] is open, or the loop is gone and [done] is
    closed. *)
Definition stop_pending (c : Ctx) (w : World) : Prop :=
  cancel (viewer w) = None /\
  ctx_done w c = true /\
  ((goroutines w = [c] /\ done_closed (viewer w) = false) \/
   (goroutines w = [] /\ done_closed (viewer w) = true)).

Lemma ctx_done_mono (c : Ctx) (id : nat) (w : World) :
  ctx_done w c = true -> ctx_done (cancel_ctx id w) c = true.
Proof.
  unfold ctx_done. rewrite !existsb_exists. intros (x & Hx & Hcan).
  exists x. split; [done|]. apply bool_decide_eq_true. apply bool_decide_eq_true in Hcan.
  cbn. by apply elem_of_union_r.
Qed.

Lemma stop_pending_step (c : Ctx) (w w' : World) :
  bg_step w w' -> stop_pending c w -> stop_pending c w'.
Proof.
  intros [c0 w0 w0' r Hin Hu | c0 w0 Hin Hdone Hopen | id w0] (Hc & Hd & Hst).
  - apply Update_frame in Hu as (Hv & Hg & Hcan & _).
    unfold stop_pending, ctx_done. by rewrite Hv, Hg, Hcan.
  - destruct Hst as [[Hg _]|[_ Hclosed]]; [|congruence].
    rewrite Hg in Hin. apply list_elem_of_singleton in Hin as ->.
    split; [done|]. split; [done|]. right. split; [|done].
    cbn. rewrite Hg. cbn. by rewrite bool_decide_eq_true_2.
  - split; [done|]. split; [by apply ctx_done_mono|done].
Qed.

Lemma stop_pending_steps (c : Ctx) (w w' : World) :
  rtc bg_step w w' -> stop_pending c w -> stop_pending c w'.
Proof. induction 1; eauto using stop_pending_step. Qed.



(** X8. [Stop] on a viewer that has no loop and whose [done] is open (one that
    was never started, in particular) waits forever, whether or not the
    viewer is marked as started. *)
Theorem Stop_without_loop_blocks (w : World) :
  goroutines w = [] ->
  done_closed (viewer w) = false ->
  Stop_blocks_forever w /\
  (forall w', rtc bg_step (Stop_signal w) w' -> goroutines w' = []).
Proof.
  intros Hnil Hopen. destruct (Stop_signal_frame w) as (Hg & Hd & _).
  split; intros w' Hrun;
    apply (bg_steps_never_close _ _ Hrun); congruence.
Qed.

End StopFacts.

(** *** Concrete runs for the properties above *)

(** A target whose [Close] may fail and that counts how often it was closed. *)
Record Latch := {
  latch_name : string;
  latch_close : option error;
  latch_closed : nat
}.

#[export] Instance Latch_Target : Target Latch :=
  {| Target_Update := fun l _ => (l, None);
     Target_Close := fun l =>
       ({| latch_name := latch_name l; latch_close := latch_close l;
           latch_closed := S (latch_closed l) |}, latch_close l);
     Target_Name := latch_name |}.

(** Three latches behind a started viewer; the first two fail to close. *)
Definition latched : Viewer.World Latch unit :=
  let h : gmap nat Latch :=
    list_to_map [(0%nat, {| latch_name := "a"; latch_close := Some (errorString "stuck-a");
                             latch_closed := 0 |});
                 (1%nat, {| latch_name := "b"; latch_close := Some (errorString "stuck-b");
                             latch_closed := 0 |});
                 (2%nat, {| latch_name := "c"; latch_close := None; latch_closed := 0 |})] in
  let w := Viewer.boot (Viewer.New []) h () in
  let w := Viewer.SetStateProvider (Some static_three) w in
  let w := (Viewer.AddTarget 0%nat w).1 in
  let w := (Viewer.AddTarget 1%nat w).1 in
  let w := (Viewer.AddTarget 2%nat w).1 in
  world_of (Viewer.Start Viewer.Background w) w.

Lemma Close_closes_every_target_witness :
  exists w' : Viewer.World Latch unit,
    Viewer.Close latched =
      Returned (w', last_some (close_result latched <$>
                                 Viewer.targets (Viewer.viewer latched)) None) /\
    Viewer.targets (Viewer.viewer w') = [] /\
    Viewer.cancel (Viewer.viewer w') = None /\
    (forall id, Viewer.cancel (Viewer.viewer latched) = Some id ->
                id ∈ Viewer.cancelled w') /\
    (forall t, Viewer.heap w' !! t =
               if decide (t ∈ Viewer.targets (Viewer.viewer latched))
               then closed <$> Viewer.heap latched !! t
               else Viewer.heap latched !! t) /\
    Viewer.goroutines w' = Viewer.goroutines latched /\
    Viewer.done_closed (Viewer.viewer w') = Viewer.done_closed (Viewer.viewer latched) /\
    Viewer.provider (Viewer.viewer w') = Viewer.provider (Viewer.viewer latched).
Proof.
  apply (Close_closes_every_target latched).
  - apply (bool_decide_unpack _). by vm_compute.
  - apply (bool_decide_unpack _). by vm_compute.
Defined.

Example latched_Close :
  exists w' : Viewer.World Latch unit,
    Viewer.Close latched = Returned (w', Some (errorString "stuck-b")) /\
    latch_closed <$> Viewer.heap w' =
      list_to_map [(0%nat, 1%nat); (1%nat, 1%nat); (2%nat, 1%nat)] /\
    Viewer.goroutines w' = [[0%nat]] /\
    Viewer.ctx_done w' [0%nat] = true.
Proof. eexists. split; [by vm_compute|]. by vm_compute. Qed.

Definition two_failing_refreshed : Viewer.World Recorder unit :=
  world_of (Viewer.Update two_failing) two_failing.

Lemma Update_refreshes_each_target_witness :
  Viewer.env two_failing_refreshed
    = (GetViewState static_three (Viewer.env two_failing)).1 /\
  forall t : Viewer.loc,
    Viewer.heap two_failing_refreshed !! t =
      Nat.iter (occurrences t (Viewer.targets (Viewer.viewer two_failing)))
               (refreshed_with (GetViewState static_three (Viewer.env two_failing)).2.1)
        <$> Viewer.heap two_failing !! t.
Proof.
  apply (Update_refreshes_each_target two_failing two_failing_refreshed static_three
           (Some (Errorf_w "target beta: " (errorString "boom-2")))).
  - reflexivity.
  - reflexivity.
  - by vm_compute.
Defined.

(** The same recorder added twice sees every snapshot twice. *)
Example added_twice_refreshed_twice :
  let w := (Viewer.AddTarget 0%nat ready).1 in
  (length ∘ rec_seen) <$> Viewer.heap (world_of (Viewer.Update w) w) =
    list_to_map [(0%nat, 2%nat); (1%nat, 1%nat); (2%nat, 1%nat)].
Proof. by vm_compute. Qed.


(** A second [Start] after the first cycle: its loop runs with [done]
    closed. *)
Definition restarted : Viewer.World Recorder unit :=
  world_of (Viewer.Start Viewer.Background stopped) stopped.


Example restarted_loop : Viewer.goroutines restarted = [[1%nat]].
Proof. by vm_compute. Qed.

(** A viewer that was built and configured but never started. *)
Lemma Stop_without_loop_blocks_witness :
  Viewer.Stop_blocks_forever ready /\
  (forall w', rtc Viewer.bg_step (Viewer.Stop_signal ready) w' -> Viewer.goroutines w' = []).
Proof. apply (Stop_without_loop_blocks ready); reflexivity. Defined.

(** ** The wire format *)

Section WireFacts.

Lemma eqb_zero_finite (f : float) : PrimFloat.eqb f 0 = true -> is_finite f = true.
Proof.
  rewrite FloatAxioms.eqb_spec. unfold is_finite.
  change (Prim2SF 0) with (S754_zero false).
  destruct (Prim2SF f) as [s| | |s m e]; cbn; try done.
  by destruct s.
Qed.

Lemma object_is_Some (fs : list (option (list (string * json)))) :
  is_Some (object fs) <-> Forall is_Some fs.
Proof.
  unfold object. rewrite fmap_is_Some, mapM_is_Some. done.
Qed.

Lemma field_is_Some {A : Type} (key : string) (enc : A -> option json) (a : A) :
  is_Some (field key enc a) <-> is_Some (enc a).
Proof. unfold field. destruct (enc a); cbn; split; intros [? ?]; by eauto. Qed.

Lemma omitempty_is_Some {A : Type} (empty : A -> bool) (key : string)
    (enc : A -> option json) (a : A) :
  is_Some (omitempty empty key enc a) <-> empty a = true \/ is_Some (enc a).
Proof.
  unfold omitempty. destruct (empty a).
  - split; [by left|by eauto].
  - destruct (enc a); cbn; split.
    + by right; eauto.
    + by eauto.
    + intros [? ?]; done.
    + intros [?|[? ?]]; done.
Qed.

Lemma marshalFloat_is_Some (f : float) : is_Some (marshalFloat f) <-> is_finite f = true.
Proof.
  unfold marshalFloat. destruct (is_finite f).
  - split; [done|by eauto].
  - split; [intros [? ?]; done|done].
Qed.

Lemma marshalSlice_is_Some {A : Type} (enc : A -> option json) (l : list A) :
  is_Some (marshalSlice enc (Some l)) <-> Forall (fun a => is_Some (enc a)) l.
Proof. cbn. rewrite fmap_is_Some, mapM_is_Some. done. Qed.

Definition projected (kind : string) (p : ProcessView) : ProcessJSON :=
  {| ProcessJSON_ID := ProcessView_ID p; ProcessJSON_Name := ProcessView_Name p;
     ProcessJSON_RAMAllocated := ProcessView_RAMAllocated p;
     ProcessJSON_Type := kind; ProcessJSON_Progress := ProcessView_Progress p;
     ProcessJSON_Subjects := None; ProcessJSON_ScriptPath := "";
     ProcessJSON_AIEnabled := false; ProcessJSON_Model := "" |}.

Lemma marshal_projected_is_Some (kind : string) (p : ProcessView) :
  is_Some (marshalProcessJSON (projected kind p)) <->
  is_finite (ProcessView_Progress p) = true.
Proof.
  unfold marshalProcessJSON. rewrite object_is_Some.
  rewrite !Forall_cons, Forall_nil, !field_is_Some, !omitempty_is_Some,
    marshalFloat_is_Some.
  cbn. split.
  - intros (_ & _ & _ & _ & [Hz|Hf] & _); [by apply eqb_zero_finite|done].
  - intros Hf. repeat split; first [ by eexists | by left | by right ].
Qed.

Lemma marshal_processes_is_Some (kind : string) (ps : list ProcessView) :
  is_Some (marshalSlice marshalProcessJSON (processViewsToJSON ps kind)) <->
  Forall (fun p => is_finite (ProcessView_Progress p) = true) ps.
Proof.
  unfold processViewsToJSON. rewrite marshalSlice_is_Some, Forall_map.
  apply Forall_iff. intros p. apply (marshal_projected_is_Some kind p).
Qed.

(** The floats of a land that reach the document. *)
Definition land_finite (land : LandView) : Prop :=
  is_finite (LandView_Occupancy land) = true /\
  Forall (fun p => is_finite (ProcessView_Progress p) = true) (AllProcesses land).

Lemma marshal_land_is_Some (g : Z) (i : nat) (land : LandView) :
  is_Some (marshalLandJSON (landToJSON g i land)) <-> land_finite land.
Proof.
  unfold marshalLandJSON. rewrite object_is_Some.
  rewrite !Forall_cons, Forall_nil, !field_is_Some, !omitempty_is_Some.
  unfold landToJSON, land_finite, AllProcesses.
  destruct ((LandView_GridX land =? 0) && (LandView_GridY land =? 0) && (0 <? Z.of_nat i));
    cbn [LandJSON_Occupancy LandJSON_Trees LandJSON_Treehouses LandJSON_Nims
         LandJSON_CPUCores LandJSON_CPUFreqGHz LandJSON_GPUVram LandJSON_GPUTflops];
    rewrite !marshalFloat_is_Some, !marshal_processes_is_Some, !Forall_app;
    (split;
     [ intros (_ & _ & _ & _ & _ & _ & _ & _ & Ho & _ & _ & _ & Ht & Hh & Hn & _);
       by repeat split
     | intros (Ho & Ht & Hh & Hn);
       repeat split; first [ done | by eexists | by left ] ]).
Qed.

(** X9. [ViewStateToJSONBytes] succeeds on the nil snapshot, and on a snapshot
    exactly when every float that reaches the document is finite: the
    occupancy of every land, the progress of every process, and the summary
    occupancy. One NaN or infinity anywhere and there is no document at
    all. *)
Theorem ViewStateToJSONBytes_fails_iff (state : ViewState) :
  is_Some (ViewStateToJSONBytes None) /\
  (is_Some (ViewStateToJSONBytes (Some state)) <->
   Forall land_finite (Lands state) /\
   is_finite (calculateOccupancy (AllocatedRAM (Summary state))
                                 (TotalRAM (Summary state))) = true).
Proof.
  split; [by vm_compute; eauto|].
  unfold ViewStateToJSONBytes, marshalWorldJSON. rewrite object_is_Some.
  rewrite !Forall_cons, Forall_nil, !field_is_Some.
  cbn [ViewStateToJSON WorldJSON_Lands WorldJSON_Summary].
  rewrite marshalSlice_is_Some.
  unfold marshalSummaryJSON. rewrite object_is_Some.
  rewrite !Forall_cons, Forall_nil, !field_is_Some. cbn [SummaryJSON_Occupancy].
  rewrite marshalFloat_is_Some.
  assert (Hlands : forall g,
    Forall (fun a => is_Some (marshalLandJSON a)) (imap (landToJSON g) (Lands state))
    <-> Forall land_finite (Lands state)).
  { intros g. rewrite !Forall_lookup. split.
    - intros H i land Hi. apply (marshal_land_is_Some g i land).
      apply (H i). by rewrite list_lookup_imap, Hi.
    - intros H i lj Hi. rewrite list_lookup_imap in Hi.
      destruct (Lands state !! i) as [land|] eqn:Hl; [|done].
      injection Hi as <-. apply marshal_land_is_Some. by apply (H i). }
  rewrite Hlands. split.
  - intros (Hl & (_ & _ & _ & _ & _ & _ & _ & Hs & _) & _). done.
  - intros (Hl & Hs). repeat split; first [ done | by eexists ].
Qed.

End WireFacts.

Example nan_progress_no_document :
  ViewStateToJSONBytes
    (Some {| Lands := [ {| LandView_ID := "a"; LandView_Hostname := "a";
                           LandView_GridX := 0; LandView_GridY := 0;
                           LandView_IsManaland := false; LandView_Occupancy := 0.5%float;
                           LandView_RAMTotal := 8; LandView_RAMAllocated := 4;
                           LandView_Trees := [];
                           LandView_Treehouses := [];
                           LandView_Nims :=
                             [ {| ProcessView_ID := "n"; ProcessView_Name := "n";
                                  ProcessView_Type := "nim"; ProcessView_RAMAllocated := 1;
                                  ProcessView_Progress := PrimFloat.nan |} ] |} ];
             Summary := summary0 8 4 |}) = None.
Proof. by vm_compute. Qed.

(** *** The document, key by key *)

(** A process object: the type tag is the array's, and a progress of zero
    leaves the [progress] key out. *)
Definition process_document (kind : string) (p : ProcessView) : json :=
  JObject
    ([("id", JString (ProcessView_ID p));
      ("name", JString (ProcessView_Name p));
      ("ram_allocated", JInt (ProcessView_RAMAllocated p));
      ("type", JString kind)]
     ++ (if PrimFloat.eqb (ProcessView_Progress p) 0 then []
         else [("progress", JFloat (ProcessView_Progress p))])).

Definition land_document (x y : Z) (land : LandView) : json :=
  JObject
    [("id", JString (LandView_ID land));
     ("hostname", JString (LandView_Hostname land));
     ("ram_total", JInt (LandView_RAMTotal land));
     ("ram_allocated", JInt (LandView_RAMAllocated land));
     ("occupancy", JFloat (LandView_Occupancy land));
     ("is_manaland", JBool (LandView_IsManaland land));
     ("grid_x", JInt x);
     ("grid_y", JInt y);
     ("trees", JArray (process_document "tree" <$> LandView_Trees land));
     ("treehouses", JArray (process_document "treehouse" <$> LandView_Treehouses land));
     ("nims", JArray (process_document "nim" <$> LandView_Nims land))].

Definition summary_document (s : SummaryView) : json :=
  JObject
    [("land_count", JInt (TotalLands s));
     ("manaland_count", JInt (TotalManalands s));
     ("tree_count", JInt (TotalTrees s));
     ("treehouse_count", JInt (TotalTreehouses s));
     ("nim_count", JInt (TotalNims s));
     ("total_ram", JInt (TotalRAM s));
     ("ram_allocated", JInt (AllocatedRAM s));
     ("occupancy", JFloat (calculateOccupancy (AllocatedRAM s) (TotalRAM s)))].

Section DocumentFacts.

Lemma marshal_projected_document (kind : string) (p : ProcessView) :
  is_finite (ProcessView_Progress p) = true ->
  marshalProcessJSON (projected kind p) = Some (process_document kind p).
Proof.
  intros Hf. unfold marshalProcessJSON, process_document, object, field, omitempty.
  cbn [projected ProcessJSON_ID ProcessJSON_Name ProcessJSON_RAMAllocated
       ProcessJSON_Type ProcessJSON_Progress ProcessJSON_Subjects
       ProcessJSON_ScriptPath ProcessJSON_AIEnabled ProcessJSON_Model].
  unfold marshalFloat. rewrite Hf.
  by destruct (PrimFloat.eqb (ProcessView_Progress p) 0).
Qed.

Lemma marshal_processes_document (kind : string) (ps : list ProcessView) :
  Forall (fun p => is_finite (ProcessView_Progress p) = true) ps ->
  marshalSlice marshalProcessJSON (processViewsToJSON ps kind)
    = Some (JArray (process_document kind <$> ps)).
Proof.
  intros Hf. unfold processViewsToJSON, marshalSlice.
  replace (mapM marshalProcessJSON (map (projected kind) ps))
    with (Some (process_document kind <$> ps)); [done|].
  symmetry. apply mapM_Some. induction Hf as [|p ps Hp _ IH]; [constructor|].
  constructor; [by apply marshal_projected_document|done].
Qed.

Lemma marshal_land_document (g : Z) (i : nat) (land : LandView) :
  land_finite land ->
  marshalLandJSON (landToJSON g i land)
    = Some (land_document (LandJSON_GridX (landToJSON g i land))
                          (LandJSON_GridY (landToJSON g i land)) land).
Proof.
  intros [Ho Hp]. unfold AllProcesses in Hp.
  apply Forall_app in Hp as [Ht Hp]. apply Forall_app in Hp as [Hh Hn].
  unfold marshalLandJSON, land_document, object, field, omitempty, landToJSON.
  destruct ((LandView_GridX land =? 0) && (LandView_GridY land =? 0) && (0 <? Z.of_nat i));
    cbn [LandJSON_ID LandJSON_Hostname LandJSON_RAMTotal LandJSON_RAMAllocated
         LandJSON_Occupancy LandJSON_IsManaland LandJSON_GridX LandJSON_GridY
         LandJSON_Trees LandJSON_Treehouses LandJSON_Nims
         LandJSON_CPUCores LandJSON_CPUFreqGHz LandJSON_GPUVram LandJSON_GPUTflops];
    rewrite (marshal_processes_document "tree" _ Ht),
            (marshal_processes_document "treehouse" _ Hh),
            (marshal_processes_document "nim" _ Hn);
    unfold marshalFloat; rewrite Ho; done.
Qed.

(** X10. The document of a snapshot whose floats are all finite. Every land
    object has the same eleven keys (the hardware keys [cpu_cores],
    [cpu_freq_ghz], [gpu_vram], [gpu_tflops] never appear), every process
    object carries the type tag of its array whatever its stored type, has
    no [subjects], [script_path], [ai_enabled] or [model], and has a
    [progress] key only when its progress is not zero; the summary counts
    are the caller's, not recounted from the lands. *)
Theorem ViewStateToJSONBytes_document (state : ViewState) :
  Forall land_finite (Lands state) ->
  is_finite (calculateOccupancy (AllocatedRAM (Summary state))
                                (TotalRAM (Summary state))) = true ->
  let projection := ViewStateToJSON (Some state) in
  exists landsJSON,
    WorldJSON_Lands projection = Some landsJSON /\
    ViewStateToJSONBytes (Some state) =
      Some (JObject
        [("lands",
          JArray (zip_with (fun lj land =>
                              land_document (LandJSON_GridX lj) (LandJSON_GridY lj) land)
                           landsJSON (Lands state)));
         ("summary", summary_document (Summary state))]).
Proof.
  intros Hlands Hsum. cbn zeta.
  set (g := gridSize (Z.of_nat (length (Lands state)))).
  exists (imap (landToJSON g) (Lands state)). split; [done|].
  unfold ViewStateToJSONBytes, marshalWorldJSON, object, field.
  cbn [ViewStateToJSON WorldJSON_Lands WorldJSON_Summary]. fold g.
  assert (Hl : mapM marshalLandJSON (imap (landToJSON g) (Lands state)) =
    Some (zip_with (fun lj land =>
                      land_document (LandJSON_GridX lj) (LandJSON_GridY lj) land)
                   (imap (landToJSON g) (Lands state)) (Lands state))).
  { apply mapM_Some. apply Forall2_same_length_lookup. split.
    - rewrite length_zip_with, length_imap. lia.
    - intros i lj doc Hi Hdoc. rewrite list_lookup_imap in Hi.
      destruct (Lands state !! i) as [land|] eqn:Hland; [|done]. injection Hi as <-.
      apply lookup_zip_with_Some in Hdoc as (lj & land' & -> & Hlj & Hland').
      rewrite list_lookup_imap, Hland in Hlj. injection Hlj as <-.
      rewrite Hland in Hland'. injection Hland' as <-.
      apply marshal_land_document. by apply (proj1 (Forall_lookup _ _) Hlands i). }
  unfold marshalSlice. rewrite Hl.
  unfold marshalSummaryJSON, object, field, marshalFloat.
  cbn [SummaryJSON_LandCount SummaryJSON_ManalandCount SummaryJSON_TreeCount
       SummaryJSON_TreehouseCount SummaryJSON_NimCount SummaryJSON_TotalRAM
       SummaryJSON_RAMAllocated SummaryJSON_Occupancy].
  rewrite Hsum. done.
Qed.

End DocumentFacts.

Lemma ViewStateToJSONBytes_document_witness :
  exists landsJSON,
    WorldJSON_Lands (ViewStateToJSON (Some three_lands)) = Some landsJSON /\
    ViewStateToJSONBytes (Some three_lands) =
      Some (JObject
        [("lands",
          JArray (zip_with (fun lj land =>
                              land_document (LandJSON_GridX lj) (LandJSON_GridY lj) land)
                           landsJSON (Lands three_lands)));
         ("summary", summary_document (Summary three_lands))]).
Proof.
  apply (ViewStateToJSONBytes_document three_lands).
  - apply (bool_decide_unpack _). by vm_compute.
  - by vm_compute.
Defined.

(** *** The default layout *)

(** X11. Two lands that both fall back to the computed layout are put in
    different cells, both inside the g-by-g square and neither at the
    origin (g the grid size of the snapshot). *)
Theorem default_layout_cells (state : ViewState) (i j : nat) (a b : LandView) :
  Z.of_nat (length (Lands state)) <= max_lands ->
  Lands state !! i = Some a ->
  Lands state !! j = Some b ->
  (0 < i)%nat -> (0 < j)%nat -> i ≠ j ->
  LandView_GridX a = 0 -> LandView_GridY a = 0 ->
  LandView_GridX b = 0 -> LandView_GridY b = 0 ->
  exists (landsJSON : list LandJSON) (la lb : LandJSON),
    let g := gridSize (Z.of_nat (length (Lands state))) in
    WorldJSON_Lands (ViewStateToJSON (Some state)) = Some landsJSON /\
    landsJSON !! i = Some la /\ landsJSON !! j = Some lb /\
    0 <= LandJSON_GridX la < g /\ 0 <= LandJSON_GridY la < g /\
    (LandJSON_GridX la, LandJSON_GridY la) ≠ (0, 0) /\
    (LandJSON_GridX la, LandJSON_GridY la) ≠ (LandJSON_GridX lb, LandJSON_GridY lb).
Proof.
  intros Hlen Ha Hb Hi Hj Hij Hax Hay Hbx Hby.
  set (N := Z.of_nat (length (Lands state))).
  assert (HiN : (i < length (Lands state))%nat) by (by eapply lookup_lt_Some).
  assert (HjN : (j < length (Lands state))%nat) by (by eapply lookup_lt_Some).
  assert (Hg : is_ceil_sqrt N (gridSize N)) by (apply gridSize_is_ceil_sqrt; lia).
  pose proof (gridSize_pos N) as Hpos.
  exists (imap (landToJSON (gridSize N)) (Lands state)),
         (landToJSON (gridSize N) i a), (landToJSON (gridSize N) j b).
  cbn zeta. fold N.
  pose proof (landToJSON_grid (gridSize N) i a) as Hca.
  pose proof (landToJSON_grid (gridSize N) j b) as Hcb.
  rewrite Hax, Hay in Hca. rewrite Hbx, Hby in Hcb. cbn [Z.eqb andb] in Hca, Hcb.
  destruct (Z.ltb_spec 0 (Z.of_nat i)) as [_|]; [|lia].
  destruct (Z.ltb_spec 0 (Z.of_nat j)) as [_|]; [|lia].
  injection Hca as HXa HYa. injection Hcb as HXb HYb.
  rewrite Z.rem_mod_nonneg in HXa, HXb by lia.
  rewrite Z.quot_div_nonneg in HYa, HYb by lia.
  pose proof (Z.div_mod (Z.of_nat i) (gridSize N)) as Hdi.
  pose proof (Z.div_mod (Z.of_nat j) (gridSize N)) as Hdj.
  pose proof (Z.mod_pos_bound (Z.of_nat i) (gridSize N)) as Hmi.
  pose proof (Z.div_pos (Z.of_nat i) (gridSize N)) as Hqi.
  assert (Hyi : Z.of_nat i / gridSize N < gridSize N).
  { apply Z.div_lt_upper_bound; [lia|]. destruct Hg as (_ & _ & Hle). lia. }
  split; [done|]. split; [by rewrite list_lookup_imap, Ha|].
  split; [by rewrite list_lookup_imap, Hb|].
  rewrite HXa, HYa, HXb, HYb.
  split; [lia|]. split; [lia|]. split.
  - intros [= Hm Hd]. lia.
  - intros [= Hm Hd]. apply Hij. apply Nat2Z.inj. rewrite Hdi, Hdj by lia.
    by rewrite Hm, Hd.
Qed.

Lemma default_layout_cells_witness :
  exists (landsJSON : list LandJSON) (la lb : LandJSON),
    let g := gridSize (Z.of_nat (length (Lands (default three_lands (lands_state 5))))) in
    WorldJSON_Lands (ViewStateToJSON (lands_state 5)) = Some landsJSON /\
    landsJSON !! 2%nat = Some la /\ landsJSON !! 4%nat = Some lb /\
    0 <= LandJSON_GridX la < g /\ 0 <= LandJSON_GridY la < g /\
    (LandJSON_GridX la, LandJSON_GridY la) ≠ (0, 0) /\
    (LandJSON_GridX la, LandJSON_GridY la) ≠ (LandJSON_GridX lb, LandJSON_GridY lb).
Proof.
  apply (default_layout_cells (default three_lands (lands_state 5)) 2 4
           (land0 "land" 0 0) (land0 "land" 0 0)); try reflexivity; try lia.
  by vm_compute.
Defined.

(** The computed cells are not kept clear of the cells the caller chose:
    here the second land falls back to cell (1,0), which the third land was
    given. *)
Example default_layout_may_collide :
  (fun l => (LandJSON_GridX l, LandJSON_GridY l)) <$>
    default [] (WorldJSON_Lands (ViewStateToJSON
      (Some {| Lands := [land0 "a" 0 0; land0 "b" 0 0; land0 "c" 1 0];
               Summary := summary0 0 0 |})))
  = [(0, 0); (1, 0); (1, 0)].
Proof. by vm_compute. Qed.

(** ** The rendering adapter *)

(** X12. The adapter lists the lands in order at their stored coordinates (the
    default layout of the JSON projection is not applied), and every
    process of every land exactly once: land by land, trees, treehouses,
    nims, as [AllProcesses] orders them, each tagged by the array it stands
    in and placed on its land. A nil snapshot gives no lands and no
    processes. *)
Theorem adapter_lists_everything (state : ViewState) :
  let a := NewSpritesStateAdapter (Some state) in
  SpritesStateAdapter_Lands (NewSpritesStateAdapter None) = [] /\
  SpritesStateAdapter_Processes (NewSpritesStateAdapter None) = [] /\
  (fun l => (sprites_Land_ID l, sprites_Land_X l, sprites_Land_Y l))
     <$> SpritesStateAdapter_Lands a
   = (fun land => (LandView_ID land, float64_of_Z (LandView_GridX land),
                   float64_of_Z (LandView_GridY land))) <$> Lands state /\
  sprites_Process_ID <$> SpritesStateAdapter_Processes a
   = concat ((fun land => ProcessView_ID <$> AllProcesses land) <$> Lands state) /\
  (forall p, p ∈ SpritesStateAdapter_Processes a ->
     sprites_Process_Type p ∈ ["tree"; "treehouse"; "nim"] /\
     exists land, land ∈ Lands state /\
       sprites_Process_LandID p = LandView_ID land /\
       sprites_Process_X p = float64_of_Z (LandView_GridX land) /\
       sprites_Process_Y p = float64_of_Z (LandView_GridY land) /\
       exists q, q ∈ AllProcesses land /\
         sprites_Process_ID p = ProcessView_ID q /\
         sprites_Process_Progress p = ProcessView_Progress q).
Proof.
  cbn zeta. split; [done|]. split; [done|]. split; [|split].
  - unfold SpritesStateAdapter_Lands. cbn. rewrite <- list_fmap_compose.
    by apply list_fmap_ext.
  - unfold SpritesStateAdapter_Processes. cbn.
    induction (Lands state) as [|land lands IH]; [done|].
    cbn. rewrite fmap_app, IH. f_equal.
    unfold AllProcesses, land_processes. rewrite !fmap_app, <- !list_fmap_compose.
    done.
  - intros p Hp. unfold SpritesStateAdapter_Processes in Hp. cbn in Hp.
    apply list_elem_of_In, in_concat in Hp as (ps & Hps & Hp).
    apply list_elem_of_In in Hp. apply in_map_iff in Hps as (land & <- & Hland).
    apply list_elem_of_In in Hland.
    assert (Hkind : forall kind procs,
      p ∈ land_processes land kind procs ->
      sprites_Process_Type p = kind /\
      sprites_Process_LandID p = LandView_ID land /\
      sprites_Process_X p = float64_of_Z (LandView_GridX land) /\
      sprites_Process_Y p = float64_of_Z (LandView_GridY land) /\
      exists q, q ∈ procs /\ sprites_Process_ID p = ProcessView_ID q /\
                sprites_Process_Progress p = ProcessView_Progress q).
    { intros kind procs Hin. apply list_elem_of_fmap in Hin as (q & -> & Hq).
      cbn. repeat (split; [done|]). by exists q. }
    unfold AllProcesses.
    apply elem_of_app in Hp as [Hp|Hp]; [|apply elem_of_app in Hp as [Hp|Hp]];
      apply Hkind in Hp as (Hk & Hid & Hx & Hy & q & Hq & Hq1 & Hq2);
      (split; [rewrite Hk; rewrite !elem_of_cons; by eauto|]);
      exists land; repeat (split; [done|]); exists q;
      (split; [rewrite !elem_of_app; by eauto|done]).
Qed.

(** ** The Web/JSON target over a sequence of refreshes *)

Definition web_updates (sts : list (option ViewState)) (t : Web.WebTarget)
  : Web.WebTarget :=
  fold_left (fun t st => (Web.Update t st).1) sts t.

Lemma Web_Update_step (t : Web.WebTarget) (st : option ViewState) :
  (Web.Update t st).2 = None /\
  Web.state (Web.Update t st).1 = st /\
  Web.started (Web.Update t st).1 = true /\
  Web.addr (Web.Update t st).1 = Web.addr t /\
  Web.webDir (Web.Update t st).1 = Web.webDir t /\
  Web.server (Web.Update t st).1 =
    (if Web.started t then Web.server t else Some {| Web.Addr := Web.addr t |}).
Proof. unfold Web.Update, Web.start. cbn. by destruct (Web.started t). Qed.

(** X13. After any number of refreshes the target holds the last snapshot and
    serves its projection; no refresh fails; the listener is created by the
    first refresh, on the configured address, and later refreshes leave it
    alone. *)
Theorem Web_serves_latest (t : Web.WebTarget) (sts : list (option ViewState))
    (st : option ViewState) :
  let t' := web_updates (sts ++ [st]) t in
  (forall t0 st0, (Web.Update t0 st0).2 = None) /\
  Web.state t' = st /\
  Web.started t' = true /\
  Web.addr t' = Web.addr t /\
  Web.webDir t' = Web.webDir t /\
  Web.server t' =
    (if Web.started t then Web.server t else Some {| Web.Addr := Web.addr t |}) /\
  Web.status (Web.handleViewmodel t') = Web.StatusOK /\
  Web.body (Web.handleViewmodel t') = Web.Encode (ViewStateToJSON st).
Proof.
  cbn zeta. split; [intros t0 st0; apply Web_Update_step|].
  assert (Hfacts : Web.state (web_updates (sts ++ [st]) t) = st /\
    Web.started (web_updates (sts ++ [st]) t) = true /\
    Web.addr (web_updates (sts ++ [st]) t) = Web.addr t /\
    Web.webDir (web_updates (sts ++ [st]) t) = Web.webDir t /\
    Web.server (web_updates (sts ++ [st]) t) =
      (if Web.started t then Web.server t else Some {| Web.Addr := Web.addr t |})).
  { revert t. induction sts as [|x sts IH]; intros t.
    - cbn. destruct (Web_Update_step t st) as (_ & ? & ? & ? & ? & ?). done.
    - cbn [app web_updates fold_left]. fold (web_updates (sts ++ [st]) (Web.Update t x).1).
      destruct (IH (Web.Update t x).1) as (Hs & Hst & Ha & Hw & Hsrv).
      destruct (Web_Update_step t x) as (_ & _ & Hst1 & Ha1 & Hw1 & Hsrv1).
      rewrite Hs, Hst, Ha, Hw, Hsrv, Hst1, Ha1, Hw1, Hsrv1. done. }
  destruct Hfacts as (Hs & Hst & Ha & Hw & Hsrv).
  repeat (split; [done|]).
  unfold Web.handleViewmodel. rewrite Hs. by destruct st.
Qed.

(** ** The image target: what the display is sent *)

(** Each element differs from the one before it, the first from [prev]. *)
Fixpoint differs_from_previous (prev : bytes) (l : list bytes) : Prop :=
  match l with
  | [] => True
  | b :: rest => b ≠ prev /\ differs_from_previous b rest
  end.

Section DisplayFacts.

Context {X Image : Type} (E : TV.Externals X Image).

Import TV.

(** X14. Over any sequence of [Update] calls the display is never sent the same
    picture twice in a row, nor first the picture the target already held;
    it is sent at most one picture per call; and the target ends up holding
    the last picture it sent (or the one it held, if it sent none). *)
Theorem display_never_sent_same_twice (states : list (option ViewState))
    (t : SmartTVTarget) (w : TV.World X) :
  let '((t', rs), w') := run E states t w in
  exists sent : list bytes,
    pushed_of (trace w') = pushed_of (trace w) ++ sent /\
    differs_from_previous (lastImageBytes t) sent /\
    (length sent <= length states)%nat /\
    lastImageBytes t' = List.last sent (lastImageBytes t).
Proof.
  revert t w. induction states as [|state rest IH]; intros t w.
  - cbn. exists []. by rewrite app_nil_r.
  - cbn [run]. unfold mbind, M_bind, mret, M_ret.
    pose proof (Update_step E t state w) as Hstep.
    destruct (Update E t state w) as [[t1 r] w1].
    specialize (IH t1 w1). destruct (run E rest t1 w1) as [[t2 rs] w2].
    destruct IH as (sent & Hpush & Hdiff & Hlen & Hlast).
    unfold pushed_of in *.
    destruct Hstep as [(Htr & -> & _) | [(b & Htr & Hb & -> & _) | (b & res & Htr & Hb & -> & _)]].
    + exists sent. rewrite Hpush, Htr. cbn. split; [done|]. split; [done|]. split; [lia|done].
    + exists sent. rewrite Hpush, Htr, omap_app. cbn. rewrite app_nil_r.
      split; [done|]. split; [done|]. split; [lia|done].
    + exists (b :: sent). rewrite Hpush, Htr, omap_app. cbn. rewrite <- app_assoc.
      split; [done|]. split; [done|]. split; [lia|].
      rewrite Hlast. cbn. destruct sent as [|x sent]; [done|].
      symmetry. apply last_cons_default.
Qed.

End DisplayFacts.

(** ** convertToJFIF on a disk *)

(** A machine for the two-stage conversion: a clock that moves on at every
    reading and the files on disk. *)
Record Disk := {
  disk_clock : Z;
  disk_files : gmap string bytes
}.

(** The two external programs: each may fail (not installed, bad input),
    and writes its output file when it does not. *)
Record Tools := {
  ffmpeg_fails : option error;
  ffmpeg_jpeg : bytes -> bytes;
  magick_fails : option error;
  magick_jfif : bytes -> bytes;
  push_fails : option error
}.

Definition disk_write (path : string) (b : bytes) (d : Disk) : Disk :=
  {| disk_clock := disk_clock d; disk_files := <[path := b]> (disk_files d) |}.

Definition disk_externals (T : Tools) : TV.Externals Disk bytes :=
  {| TV.sprites_Render := fun a d => (frame_of a, d);
     TV.time_Now_UnixNano := fun d =>
       (disk_clock d, {| disk_clock := disk_clock d + 1; disk_files := disk_files d |});
     TV.run_ffmpeg_still := fun img path d =>
       match ffmpeg_fails T with
       | Some e => (Some e, d)
       | None => (None, disk_write path (ffmpeg_jpeg T img) d)
       end;
     TV.run_magick := fun src dst d =>
       match magick_fails T with
       | Some e => (Some e, d)
       | None =>
           match disk_files d !! src with
           | Some b => (None, disk_write dst (magick_jfif T b) d)
           | None => (Some (errorString "unable to open image"), d)
           end
       end;
     TV.os_ReadFile := fun path d =>
       match disk_files d !! path with
       | Some b => ((b, None), d)
       | None => (([], Some (errorString "no such file or directory")), d)
       end;
     TV.os_Remove := fun path d =>
       ((), {| disk_clock := disk_clock d; disk_files := delete path (disk_files d) |});
     TV.jpeg_Encode := fun img => (img, None);
     TV.DisplayImageJPEG := fun _ _ d => (push_fails T, d) |}.

(** X15. Whatever the two programs do, [convertToJFIF] leaves neither of its two
    temporary files behind and touches no other file. It fails only when
    the first stage fails; when the second stage fails it falls back to the
    first stage's output; otherwise it returns the second stage's. *)
Theorem convertToJFIF_cleans_up (T : Tools) (img : bytes) (w : TV.World Disk) :
  let tmpFile := "/tmp/viewer_" +:+ pretty (disk_clock (TV.ext w)) +:+ ".jpg" in
  let jfifFile := "/tmp/viewer_" +:+ pretty (disk_clock (TV.ext w) + 1) +:+ "_jfif.jpg" in
  let '((data, err), w') := TV.convertToJFIF (disk_externals T) img w in
  TV.trace w' = TV.trace w /\
  (forall path,
     disk_files (TV.ext w') !! path =
       if decide (path = tmpFile \/ path = jfifFile) then None
       else disk_files (TV.ext w) !! path) /\
  (data, err) =
    match ffmpeg_fails T, magick_fails T with
    | Some e, _ => ([], Some (Errorf_w "ffmpeg: " e))
    | None, Some _ => (ffmpeg_jpeg T img, None)
    | None, None => (magick_jfif T (ffmpeg_jpeg T img), None)
    end.
Proof.
  cbn zeta. unfold TV.convertToJFIF, mbind, M_bind, mret, M_ret, TV.call.
  cbn [disk_externals TV.time_Now_UnixNano TV.run_ffmpeg_still TV.run_magick
       TV.os_ReadFile TV.os_Remove TV.ext TV.trace disk_clock disk_files].
  set (tmp := "/tmp/viewer_" +:+ pretty (disk_clock (TV.ext w)) +:+ ".jpg").
  set (jfif := "/tmp/viewer_" +:+ pretty (disk_clock (TV.ext w) + 1) +:+ "_jfif.jpg").
  assert (Hfiles : forall (fs : gmap string bytes) path,
    (forall p, p ≠ tmp -> p ≠ jfif -> fs !! p = disk_files (TV.ext w) !! p) ->
    delete tmp (delete jfif fs) !! path =
      if decide (path = tmp \/ path = jfif) then None
      else disk_files (TV.ext w) !! path).
  { intros fs path Hfs. destruct (decide (path = tmp \/ path = jfif)) as [[->| ->]|Hne].
    - by rewrite lookup_delete_eq.
    - destruct (decide (tmp = jfif)) as [->|Hd]; [by rewrite lookup_delete_eq|].
      by rewrite lookup_delete_ne, lookup_delete_eq.
    - rewrite !lookup_delete_ne by (intros ->; apply Hne; auto).
      apply Hfs; intros ->; apply Hne; auto. }
  destruct (ffmpeg_fails T) as [e|]; cbn [TV.ext TV.trace disk_clock disk_files disk_write].
  - split; [done|]. split; [|done]. intros path. by apply Hfiles.
  - destruct (magick_fails T) as [e|];
      cbn [TV.ext TV.trace disk_clock disk_files disk_write];
      rewrite ?lookup_insert_eq; cbn [TV.ext TV.trace disk_clock disk_files disk_write];
      rewrite ?lookup_insert_eq; cbn [TV.ext TV.trace disk_clock disk_files disk_write].
    + split; [done|]. split; [|done]. intros path. apply Hfiles.
      intros p Hp _. by rewrite lookup_insert_ne.
    + split; [done|]. split; [|done]. intros path. apply Hfiles.
      intros p Hp Hq. by rewrite !lookup_insert_ne.
Qed.

(** With the conversion on, a refresh whose first stage fails reports
    "convert to JPEG: ffmpeg: <cause>", sends nothing and keeps the bytes it
    held; one whose second stage fails sends the first stage's picture. *)
Example Update_with_missing_magick :
  let T := {| ffmpeg_fails := None; ffmpeg_jpeg := fun pix => Byte.xff :: pix;
              magick_fails := Some (errorString "exec: magick not found");
              magick_jfif := fun b => b; push_fails := None |} in
  let t := TV.NewSmartTVTarget (Some {| TV_Name := "JVC" |}) [] in
  let '((t', r), w') :=
    TV.Update (disk_externals T) t (lands_state 1)
      {| TV.ext := {| disk_clock := 7; disk_files := ∅ |}; TV.trace := [] |} in
  r = None /\
  TV.trace w' = [TV.Encoded [Byte.xff; Byte.x01]; TV.Pushed [Byte.xff; Byte.x01] None] /\
  disk_files (TV.ext w') = ∅.
Proof. by vm_compute. Qed.

(** ** The video pipeline, frame by frame *)

Section PipelineFacts.

Context (B : Video.Behaviour).

Import Video.

(** How many iterations of the frame loop render, out of [n] from
    iteration [i] on. *)
Definition iterations (n i : nat) : nat :=
  match cancel_at B with
  | Some k => Nat.min n (k - i)
  | None => n
  end.

(** The encoder's output file after it has taken [frames]. *)
Definition written (fs : gmap string bytes) (path : string) (frames : list bytes)
  : gmap string bytes :=
  match frames with
  | [] => fs
  | _ => <[path := default [] (fs !! path) ++ concat (ffmpeg_encode B <$> frames)]> fs
  end.

(** The frames the renderer delivers to its calls number [from] to
    [from + m - 1]; a call that delivers none is left out. *)
Definition rendered (from m : nat) : list bytes :=
  omap (render_frame B) (seq from m).

Lemma rendered_S (from m : nat) :
  rendered from (S m) =
  match render_frame B from with
  | Some pix => pix :: rendered (S from) m
  | None => rendered (S from) m
  end.
Proof. unfold rendered. cbn. by destruct (render_frame B from). Qed.

Lemma rendered_length (m : nat) : forall from, (length (rendered from m) <= m)%nat.
Proof.
  induction m as [|m IH]; intros from; [done|].
  rewrite rendered_S. specialize (IH (S from)).
  destruct (render_frame B from); cbn; lia.
Qed.

Lemma written_fresh (fs : gmap string bytes) (path : string) (frames : list bytes) :
  fs !! path = None ->
  written fs path frames =
    match frames with
    | [] => fs
    | _ => <[path := concat (ffmpeg_encode B <$> frames)]> fs
    end.
Proof.
  intros Hfresh. unfold written. destruct frames; [done|].
  unfold bytes in *. by rewrite Hfresh.
Qed.

Lemma written_cons (fs : gmap string bytes) (path : string) (pix : bytes)
    (frames : list bytes) :
  written (<[path := default [] (fs !! path) ++ ffmpeg_encode B pix]> fs) path frames
  = written fs path (pix :: frames).
Proof.
  unfold written. destruct frames as [|f frames]; cbn.
  - by rewrite app_nil_r.
  - rewrite lookup_insert_eq. cbn. rewrite insert_insert_eq. by rewrite <- !app_assoc.
Qed.

Lemma render_frames_healthy (adapter : SpritesStateAdapter) (n : nat) :
  (forall j, ffmpeg_takes B j = None) ->
  forall (i : nat) (w : World) (p : Proc),
  encoder w = Some p -> stdin_open p = true ->
  let m := iterations n i in
  let frames := rendered (renders w) m in
  let '(out, w') := render_frames B adapter n i w in
  renders w' = (renders w + m)%nat /\
  clock w' = clock w /\ listening w' = listening w /\
  files w' = written (files w) (output p) frames /\
  out = (if (m <? n)%nat then ReturnedCanceled else FellThrough) /\
  encoder w' = (if (m <? n)%nat then None
                else Some {| output := output p; stdin_open := true;
                             taken := (taken p + length frames)%nat |}).
Proof.
  intros Htakes. induction n as [|n IH]; intros i w p Hp Hopen; cbn zeta.
  - assert (iterations 0 i = 0%nat) as -> by (unfold iterations; destruct (cancel_at B); lia).
    cbn. rewrite !Nat.add_0_r. repeat (split; [done|]).
    rewrite Hp. destruct p; cbn in *; by subst.
  - cbn [render_frames]. unfold ctx_Done, iterations.
    destruct (cancel_at B) as [k|] eqn:Hk.
    + destruct (Nat.leb_spec k i) as [Hle|Hlt].
      * replace (Nat.min (S n) (k - i)) with 0%nat by lia.
        unfold mbind, M_bind, mret, M_ret, ffmpegIn_Close, ffmpeg_Wait. rewrite Hp. cbn.
        rewrite Nat.add_0_r. done.
      * replace (Nat.min (S n) (k - i)) with (S (Nat.min n (k - S i))) by lia.
        specialize (IH (S i)). unfold iterations in IH. rewrite Hk in IH.
        set (m := Nat.min n (k - S i)) in *.
        change (S m <? S n)%nat with (m <? n)%nat.
        unfold mbind, M_bind, sprites_Render. rewrite rendered_S.
        destruct (render_frame B (renders w)) as [pix|].
        -- unfold ffmpegIn_Write. cbn [encoder files]. rewrite Hp, Hopen, Htakes.
           match goal with |- context [render_frames B adapter n (S i) ?w2] =>
             specialize (IH w2 {| output := output p; stdin_open := true; taken := S (taken p) |}
                            eq_refl eq_refl);
             destruct (render_frames B adapter n (S i) w2) as [out w']
           end.
           cbn [renders clock listening files output taken] in IH.
           destruct IH as (Hr & Hc & Hl & Hf & Ho & He).
           rewrite Hr, Hc, Hl, Hf, Ho, He.
           rewrite written_cons. cbn [length].
           repeat (split; [first [done|lia]|]).
           destruct (m <? n)%nat; [done|]. do 2 f_equal. lia.
        -- match goal with |- context [render_frames B adapter n (S i) ?w2] =>
             specialize (IH w2 p Hp Hopen);
             destruct (render_frames B adapter n (S i) w2) as [out w']
           end.
           cbn [renders clock listening files] in IH.
           destruct IH as (Hr & Hc & Hl & Hf & Ho & He).
           rewrite Hr, Hc, Hl, Hf, Ho, He.
           repeat (split; [first [done|lia]|]). done.
    + specialize (IH (S i)). unfold iterations in IH. rewrite Hk in IH.
      rewrite Nat.ltb_irrefl in *.
      unfold mbind, M_bind, sprites_Render. rewrite rendered_S.
      destruct (render_frame B (renders w)) as [pix|].
      * unfold ffmpegIn_Write. cbn [encoder files]. rewrite Hp, Hopen, Htakes.
        match goal with |- context [render_frames B adapter n (S i) ?w2] =>
          specialize (IH w2 {| output := output p; stdin_open := true; taken := S (taken p) |}
                         eq_refl eq_refl);
          destruct (render_frames B adapter n (S i) w2) as [out w']
        end.
        cbn [renders clock listening files output taken] in IH.
        destruct IH as (Hr & Hc & Hl & Hf & Ho & He).
        rewrite Hr, Hc, Hl, Hf, Ho, He.
        rewrite written_cons. cbn [length].
        repeat (split; [first [done|lia]|]). do 2 f_equal. lia.
      * match goal with |- context [render_frames B adapter n (S i) ?w2] =>
          specialize (IH w2 p Hp Hopen);
          destruct (render_frames B adapter n (S i) w2) as [out w']
        end.
        cbn [renders clock listening files] in IH.
        destruct IH as (Hr & Hc & Hl & Hf & Ho & He).
        rewrite Hr, Hc, Hl, Hf, Ho, He.
        repeat (split; [first [done|lia]|]). done.
Qed.


End PipelineFacts.

(** ** Start and Close of the video target *)

Section StartCloseFacts.

Context (B : Video.Behaviour).

Import Video.

Lemma render_frames_listening (adapter : SpritesStateAdapter) (n : nat) :
  forall (i : nat) (w : World),
  listening (render_frames B adapter n i w).2 = listening w.
Proof.
  induction n as [|n IH]; intros i w; cbn [render_frames]; [done|].
  destruct (ctx_Done B i).
  - unfold mbind, M_bind, mret, M_ret, ffmpegIn_Close, ffmpeg_Wait.
    by destruct (encoder w).
  - unfold mbind, M_bind, sprites_Render.
    destruct (render_frame B (renders w)) as [pix|]; [|by rewrite IH].
    unfold ffmpegIn_Write. cbn [encoder].
    destruct (encoder w) as [p|]; [|done].
    destruct (stdin_open p); [|done].
    destruct (ffmpeg_takes B (taken p)); [done|]. by rewrite IH.
Qed.

(** [generateVideo] names a file exactly when it succeeds, and it is the
    file named after the clock; it never touches the listener. *)
Lemma generateVideo_result (t : VideoTarget) (st : option ViewState) (w : World) :
  let path := "/tmp/nimsforest_viewer_" +:+ pretty (clock w) +:+ ".mp4" in
  let '((file, err), w') := generateVideo B t st w in
  listening w' = listening w /\
  match err with
  | None => file = path
  | Some _ => file = ""
  end.
Proof.
  cbn zeta. unfold generateVideo, mbind, M_bind, mret, M_ret.
  unfold time_Now_UnixNano, ffmpeg_Start. cbn [clock].
  destruct (ffmpeg_found B); [done|].
  match goal with |- context [render_frames B ?a ?n 0%nat ?w1] =>
    pose proof (render_frames_listening a n 0%nat w1) as Hl;
    destruct (render_frames B a n 0%nat w1) as [out w2]
  end.
  cbn in Hl. destruct out; [done|].
  unfold ffmpegIn_Close, ffmpeg_Wait.
  destruct (encoder w2); destruct (ffmpeg_exit B); done.
Qed.



End StartCloseFacts.

(** *** Concrete runs of the pipeline *)

(** The renderer misses every third frame; nothing else goes wrong. *)
Definition dropping_frames : Video.Behaviour :=
  {| Video.ffmpeg_found := None;
     Video.ffmpeg_encode := fun pix => pix;
     Video.ffmpeg_takes := fun _ => None;
     Video.ffmpeg_exit := None;
     Video.render_frame := fun n => if (n mod 3 =? 2)%nat then None else Some frame_pixels;
     Video.cancel_at := None;
     Video.stream_result := None;
     Video.tick := 1 |}.


Example dropping_frames_written :
  length (rendered dropping_frames 0 10) = 7%nat /\
  length <$> Video.files
    (Video.generateVideo dropping_frames one_second_video
       (Video.state one_second_video) clean_machine).2 !! partial_file = Some 28%nat.
Proof. by vm_compute. Qed.


